(** * trep: the discrete-system adapter [DSystem] (src/src/dsystem.py)

    A shallow embedding of the adapter that presents a variational
    integrator as a discrete system X[k+1] = f(X[k], U[k], k), with
    X = [Q; p; v] and U = [u; rho].

    Numbers are IEEE binary64 floats, as numpy's float64 arrays hold them.
    A one-dimensional array is a list of floats, a two-dimensional array a
    list of rows, a three-dimensional array a list of matrices.  A Python
    exception is a value of [exn]; a method that can raise returns a
    [result]; a method that mutates the adapter is a function from the
    adapter to a result and the adapter it leaves behind (an exception does
    not undo the assignments made before it). *)

From Stdlib Require Import ZArith String Ascii Lia PrimFloat DecimalString.
From stdpp Require Import base list.

Local Open Scope string_scope.
Local Open Scope Z_scope.
Local Open Scope nat_scope.
Local Open Scope list_scope.

(** ** Python exceptions and results *)

Inductive exn : Type :=
| StandardError (msg : string)
| TypeError (msg : string)
| NameError (name : string)
| IndexError (msg : string)
| OverflowError (msg : string)
| ValueError (msg : string)
| ConvergenceFailure
| StateError
| AssertionError.

Definition result (A : Type) : Type := exn + A.

Definition ret {A} (a : A) : result A := inr a.
Definition raise {A} (e : exn) : result A := inl e.

Definition bind {A B} (m : result A) (k : A -> result B) : result B :=
  match m with
  | inl e => inl e
  | inr a => k a
  end.

Declare Scope py_scope.
Delimit Scope py_scope with py.
Notation "x <- m ;; k" := (bind m (fun x => k))
  (at level 20, m at level 99, k at level 200, right associativity) : py_scope.
Notation "' p <- m ;; k" := (bind m (fun x => match x with p => k end))
  (at level 20, p pattern, m at level 99, k at level 200, right associativity) : py_scope.
Local Open Scope py_scope.

(** ** numpy arrays *)

Abbreviation vector := (list float) (only parsing).
Abbreviation matrix := (list (list float)) (only parsing).
Abbreviation tensor3 := (list (list (list float))) (only parsing).

Definition zeros (n : nat) : vector := replicate n 0%float.
Definition ones (n : nat) : vector := replicate n 1%float.
Definition zeros2 (r c : nat) : matrix := replicate r (zeros c).

(** [np.zeros((r, c))] where [r] is computed by a subtraction: a negative
    dimension is refused. *)
Definition np_zeros2 (r : Z) (c : nat) : result matrix :=
  if decide (r < 0)%Z then raise (ValueError "negative dimensions are not allowed")
  else ret (zeros2 (Z.to_nat r) c).

(** [slice(start, stop)] with non-negative bounds. *)
Record slice : Type := Slice { start : nat; stop : nat }.

(** [a[s]]: the entries from [start] up to [stop], clipped to the array. *)
Definition get_slice {A} (s : slice) (a : list A) : list A :=
  take (stop s - start s) (drop (start s) a).

(** [a[s] = v] on a one-dimensional array: [v] has the length of the
    target, or one entry that is broadcast over it. *)
Definition set_slice (s : slice) (v : vector) (a : vector) : result vector :=
  let n := length (get_slice s a) in
  if decide (length v = n) then
    ret (take (start s) a ++ v ++ drop (start s + n) a)
  else
    match v with
    | [x] => ret (take (start s) a ++ replicate n x ++ drop (start s + n) a)
    | _ => raise (ValueError "could not broadcast input array")
    end.

(** The shape of a two-dimensional array given as rows; rows of different
    lengths do not form an array.  The width of an array with no row is not
    recorded and reads as 0. *)
Definition width (m : matrix) : nat :=
  match m with
  | [] => 0
  | r :: _ => length r
  end.

Definition rectangular (m : matrix) : bool :=
  forallb (fun r => Nat.eqb (length r) (width m)) m.

(** Broadcasting the rows of [v] to [n] rows. *)
Definition broadcast_rows (n : nat) (v : matrix) : result matrix :=
  if decide (length v = n) then ret v
  else
    match v with
    | [r] => ret (replicate n r)
    | _ => raise (ValueError "could not broadcast input array")
    end.

Fixpoint zip_result {A B C} (f : A -> B -> result C) (l : list A) (l' : list B)
  : result (list C) :=
  match l, l' with
  | a :: l, b :: l' =>
      c <- f a b ;; cs <- zip_result f l l' ;; ret (c :: cs)
  | _, _ => ret []
  end.

(** [a[:, s] = v] on a two-dimensional array. *)
Definition set_cols (s : slice) (v : matrix) (a : matrix) : result matrix :=
  if rectangular v then
    rows <- broadcast_rows (length a) v ;;
    zip_result (fun arow vrow => set_slice s vrow arow) a rows
  else raise (ValueError "setting an array element with a sequence").

(** [a[:, s]]. *)
Definition get_cols (s : slice) (a : matrix) : matrix :=
  map (get_slice s) a.

(** [a[rs, cs] = v] on a two-dimensional array. *)
Definition set_block (rs cs : slice) (v : matrix) (a : matrix) : result matrix :=
  let target := get_slice rs a in
  block <- set_cols cs v target ;;
  ret (take (start rs) a ++ block ++ drop (start rs + length target) a).

(** [a[rs, cs]]. *)
Definition get_block (rs cs : slice) (a : matrix) : matrix :=
  get_cols cs (get_slice rs a).

(** [m.T]. *)
Fixpoint transpose_rows (w : nat) (m : matrix) : matrix :=
  match w with
  | 0 => []
  | S w' => map (fun r => hd 0%float r) m :: transpose_rows w' (map (fun r => tl r) m)
  end.

Definition transpose (m : matrix) : matrix := transpose_rows (width m) m.

(** [np.diag(v)] of a vector. *)
Definition diag (v : vector) : matrix :=
  imap (fun i x => <[i := x]> (zeros (length v))) v.

(** Elementwise arithmetic on arrays of one shape. *)
Definition vsub (a b : vector) : result vector :=
  if decide (length a = length b) then ret (zip_with PrimFloat.sub a b)
  else raise (ValueError "operands could not be broadcast together").

Definition vdiv_scalar (a : vector) (x : float) : vector :=
  map (fun y => PrimFloat.div y x) a.

Definition vmul_scalar (a : vector) (x : float) : vector :=
  map (fun y => PrimFloat.mul y x) a.

Definition same_shape (a b : matrix) : bool :=
  Nat.eqb (length a) (length b) &&
  forallb (fun ab => Nat.eqb (length (fst ab)) (length (snd ab))) (zip a b).

Definition madd (a b : matrix) : result matrix :=
  if same_shape a b then ret (zip_with (zip_with PrimFloat.add) a b)
  else raise (ValueError "operands could not be broadcast together").

Definition msub (a b : matrix) : result matrix :=
  if same_shape a b then ret (zip_with (zip_with PrimFloat.sub) a b)
  else raise (ValueError "operands could not be broadcast together").

Definition fsum (l : list float) : float := foldl PrimFloat.add 0%float l.

(** The dot product of two one-dimensional arrays of the same length, as
    the BLAS library numpy is linked with computes it.  The library is not
    part of the repository, and the order of its operations and its
    rounding (fused multiply-add, several accumulators) are its own: the
    kernel is a parameter. *)
Class Blas : Type := dot : vector -> vector -> float.

(** One such kernel: every product rounded, the products added from the
    left. *)
Definition dot_in_order : Blas := fun a b => fsum (zip_with PrimFloat.mul a b).

(** [np.inner(z, t)] for a vector [z] and a three-dimensional [t]: the dot
    products of [z] with the vectors along the last axis of [t], which must
    have the length of [z]. *)
Definition inner `{Blas} (z : vector) (t : tensor3) : result matrix :=
  if forallb (forallb (fun c => Nat.eqb (length c) (length z))) t
  then ret (map (map (dot z)) t)
  else raise (ValueError "shapes not aligned").

(** [np.linalg.norm(m)]: the Frobenius norm. *)
Definition norm (m : matrix) : float :=
  PrimFloat.sqrt (fsum (map (fun x => PrimFloat.mul (PrimFloat.abs x) (PrimFloat.abs x)) (concat m))).

(** [a[i]] for an integer [i]: a negative index counts from the end. *)
Definition py_index (n : nat) (i : Z) : option nat :=
  if decide (0 <= i < Z.of_nat n)%Z then Some (Z.to_nat i)
  else if decide (- Z.of_nat n <= i < 0)%Z then Some (Z.to_nat (Z.of_nat n + i))
  else None.

(** numpy converts an integer index to a C long, of 64 bits, before it
    looks at the array: an index that does not fit raises [OverflowError],
    one that fits and is outside the array raises [IndexError].  An array
    has fewer than 2^63 entries, so an index of the array fits. *)
Definition fits_long (i : Z) : Prop := (- 2 ^ 63 <= i < 2 ^ 63)%Z.

Definition get_item (a : vector) (i : Z) : result float :=
  match py_index (length a) i with
  | Some j =>
      match a !! j with
      | Some x => ret x
      | None => raise (IndexError "index out of bounds")
      end
  | None =>
      if decide (fits_long i) then raise (IndexError "index out of bounds")
      else raise (OverflowError "Python int too large to convert to C long")
  end.

(** ** Formatting *)

Definition nl : string := String (ascii_of_nat 10) EmptyString.

(** ["%d" % n]. *)
Definition fmt_d (n : Z) : string := NilZero.string_of_int (Z.to_int n).

(** [repr] of the shape of a two-dimensional array. *)
Definition repr_shape (m : matrix) : string :=
  ("(" ++ fmt_d (Z.of_nat (length m)) ++ ", " ++ fmt_d (Z.of_nat (width m)) ++ ")")%string.

Definition repr_type {A} (a : option A) : string :=
  match a with
  | None => "<type 'NoneType'>"
  | Some _ => "<type 'numpy.ndarray'>"
  end.

(** ** The time vector

    [np.array(t).squeeze()] drops every axis of length one: a time vector
    with a single entry becomes a zero-dimensional array, which has no
    [len] and cannot be indexed. *)

Inductive time_array : Type :=
| Time0 (t : float)
| Time1 (ts : vector).

Definition squeeze (t : vector) : time_array :=
  match t with
  | [x] => Time0 x
  | _ => Time1 t
  end.

Definition ndim (t : time_array) : nat :=
  match t with
  | Time0 _ => 0
  | Time1 _ => 1
  end.

Definition len_time (t : time_array) : result nat :=
  match t with
  | Time0 _ => raise (TypeError "len() of unsized object")
  | Time1 ts => ret (length ts)
  end.

Definition time_item (t : time_array) (i : Z) : result float :=
  match t with
  | Time0 _ => raise (IndexError "0-d arrays can't be indexed")
  | Time1 ts => get_item ts i
  end.

(** ** The mechanical system and the variational integrator

    Neither is part of dsystem.py; the adapter reads the lengths of the
    system's lists and calls the integrator's methods. *)

Record MechSystem : Type := {
  configs : list string;
  dyn_configs : list string;
  kin_configs : list string;
  inputs : list string;
  constraints : list string
}.

(** The integrator's outputs and the four groups of quantities it
    differentiates them by. *)
Inductive output : Type := Oq2 | Op2.
Inductive wrt : Type := Dq1 | Dp1 | Du1 | Dk2.

(** What one converged step caches. *)
Record StepData : Type := {
  sd_q2 : vector;
  sd_p2 : vector;
  sd_lambda2 : vector;
  sd_d1 : output -> wrt -> matrix;
  sd_d2 : output -> wrt -> wrt -> tensor3
}.

(** The solver of one step: from the system, [(t1, q1, p1, lambda1)] and
    [(t2, u1, k2)] to the converged step or a failure. *)
Class Solver : Type :=
  solve : MechSystem -> float -> vector -> vector -> vector ->
          float -> vector -> vector -> result StepData.

Record state1 : Type := {
  s_t : float;
  s_q : vector;
  s_p : vector;
  s_lambda : vector
}.

Inductive vi_phase : Type :=
| Fresh
| Initialized (s1 : state1)
| Stepped (s1 : state1) (t2 : float) (sd : StepData).

Record VarInt : Type := {
  system : MechSystem;
  phase : vi_phase
}.

(** Modelled from the spec: the integrator's state machine (section 4.3),
    which is not in src/.  [initialize_from_state] sets the integrator to
    Initialized and discards the cached step; an omitted [lambda1] is
    zero. *)
Definition initialize_from_state (t1 : float) (q1 p1 : vector)
    (lambda1 : option vector) (vi : VarInt) : VarInt :=
  {| system := system vi;
     phase := Initialized
       {| s_t := t1; s_q := q1; s_p := p1;
          s_lambda := default (zeros (length (constraints (system vi)))) lambda1 |} |}.

(** Modelled from the spec: [step] of the integrator, which is not in src/.
    It solves from the current instant (the end of the previous step when
    there is one); a failure leaves no cached step. *)
Definition vi_step `{Solver} (t2 : float) (u1 k2 : vector) (vi : VarInt)
  : result unit * VarInt :=
  let run (s1 : state1) :=
    match solve (system vi) (s_t s1) (s_q s1) (s_p s1) (s_lambda s1) t2 u1 k2 with
    | inl e => (inl e, {| system := system vi; phase := Initialized s1 |})
    | inr sd => (inr tt, {| system := system vi; phase := Stepped s1 t2 sd |})
    end in
  match phase vi with
  | Fresh => (inl StateError, vi)
  | Initialized s1 => run s1
  | Stepped _ t2' sd =>
      run {| s_t := t2'; s_q := sd_q2 sd; s_p := sd_p2 sd; s_lambda := sd_lambda2 sd |}
  end.

(** Modelled from the spec: the integrator's accessors, which are not in
    src/; those of the step are an error before a successful step. *)
Definition vi_state1 (vi : VarInt) : result state1 :=
  match phase vi with
  | Fresh => raise StateError
  | Initialized s1 | Stepped s1 _ _ => ret s1
  end.

Definition vi_stepped (vi : VarInt) : result (float * StepData) :=
  match phase vi with
  | Stepped _ t2 sd => ret (t2, sd)
  | _ => raise StateError
  end.

Definition vi_t1 (vi : VarInt) : result float := s1 <- vi_state1 vi ;; ret (s_t s1).
Definition vi_q1 (vi : VarInt) : result vector := s1 <- vi_state1 vi ;; ret (s_q s1).
Definition vi_t2 (vi : VarInt) : result float := s <- vi_stepped vi ;; ret (fst s).
Definition vi_q2 (vi : VarInt) : result vector := s <- vi_stepped vi ;; ret (sd_q2 (snd s)).
Definition vi_p2 (vi : VarInt) : result vector := s <- vi_stepped vi ;; ret (sd_p2 (snd s)).

Definition vi_d1 (o : output) (x : wrt) (vi : VarInt) : result matrix :=
  s <- vi_stepped vi ;; ret (sd_d1 (snd s) o x).
Definition vi_d2 (o : output) (x y : wrt) (vi : VarInt) : result tensor3 :=
  s <- vi_stepped vi ;; ret (sd_d2 (snd s) o x y).

Definition q2_dq1 := vi_d1 Oq2 Dq1.
Definition q2_dp1 := vi_d1 Oq2 Dp1.
Definition q2_du1 := vi_d1 Oq2 Du1.
Definition q2_dk2 := vi_d1 Oq2 Dk2.
Definition p2_dq1 := vi_d1 Op2 Dq1.
Definition p2_dp1 := vi_d1 Op2 Dp1.
Definition p2_du1 := vi_d1 Op2 Du1.
Definition p2_dk2 := vi_d1 Op2 Dk2.

Definition q2_dq1dq1 := vi_d2 Oq2 Dq1 Dq1.
Definition q2_dq1dp1 := vi_d2 Oq2 Dq1 Dp1.
Definition q2_dp1dp1 := vi_d2 Oq2 Dp1 Dp1.
Definition q2_dq1du1 := vi_d2 Oq2 Dq1 Du1.
Definition q2_dq1dk2 := vi_d2 Oq2 Dq1 Dk2.
Definition q2_dp1du1 := vi_d2 Oq2 Dp1 Du1.
Definition q2_dp1dk2 := vi_d2 Oq2 Dp1 Dk2.
Definition q2_du1du1 := vi_d2 Oq2 Du1 Du1.
Definition q2_du1dk2 := vi_d2 Oq2 Du1 Dk2.
Definition q2_dk2dk2 := vi_d2 Oq2 Dk2 Dk2.
Definition p2_dq1dq1 := vi_d2 Op2 Dq1 Dq1.
Definition p2_dq1dp1 := vi_d2 Op2 Dq1 Dp1.
Definition p2_dp1dp1 := vi_d2 Op2 Dp1 Dp1.
Definition p2_dq1du1 := vi_d2 Op2 Dq1 Du1.
Definition p2_dq1dk2 := vi_d2 Op2 Dq1 Dk2.
Definition p2_dp1du1 := vi_d2 Op2 Dp1 Du1.
Definition p2_dp1dk2 := vi_d2 Op2 Dp1 Dk2.
Definition p2_du1du1 := vi_d2 Op2 Du1 Du1.
Definition p2_du1dk2 := vi_d2 Op2 Du1 Dk2.
Definition p2_dk2dk2 := vi_d2 Op2 Dk2 Dk2.

(** ** The adapter *)

Record DSystem : Type := {
  varint : VarInt;
  _xk : option vector;
  _uk : option vector;
  _time : time_array;
  _k : Z;
  _nQ : nat;
  _np : nat;
  _nv : nat;
  _nu : nat;
  _nrho : nat;
  _nX : nat;
  _nU : nat;
  _slice_Q : slice;
  _slice_p : slice;
  _slice_v : slice;
  _slice_u : slice;
  _slice_rho : slice
}.

(** [DSystem.__init__]. *)
Definition DSystem_init (vi : VarInt) (t : vector) : DSystem :=
  let nQ := length (configs (system vi)) in
  let np := length (dyn_configs (system vi)) in
  let nv := length (kin_configs (system vi)) in
  let nu := length (inputs (system vi)) in
  let nrho := length (kin_configs (system vi)) in
  let nX := nQ + np + nv in
  let nU := nu + nrho in
  {| varint := vi;
     _xk := None;
     _uk := None;
     _time := squeeze t;
     _k := 0%Z;
     _nQ := nQ; _np := np; _nv := nv; _nu := nu; _nrho := nrho;
     _nX := nX; _nU := nU;
     _slice_Q := Slice 0 nQ;
     _slice_p := Slice nQ (nQ + np);
     _slice_v := Slice (nQ + np) nX;
     _slice_u := Slice 0 nu;
     _slice_rho := Slice nu nU |}.

Definition nX (self : DSystem) : nat := _nX self.
Definition nU (self : DSystem) : nat := _nU self.
Definition time (self : DSystem) : time_array := _time self.
(** The property [DSystem.system] (the name [system] is the integrator's). *)
Definition dsystem (self : DSystem) : MechSystem := system (varint self).

Definition with_time (t : time_array) (self : DSystem) : DSystem :=
  {| varint := varint self; _xk := _xk self; _uk := _uk self;
     _time := t; _k := _k self;
     _nQ := _nQ self; _np := _np self; _nv := _nv self; _nu := _nu self;
     _nrho := _nrho self; _nX := _nX self; _nU := _nU self;
     _slice_Q := _slice_Q self; _slice_p := _slice_p self;
     _slice_v := _slice_v self; _slice_u := _slice_u self;
     _slice_rho := _slice_rho self |}.

Definition with_k (k : Z) (self : DSystem) : DSystem :=
  {| varint := varint self; _xk := _xk self; _uk := _uk self;
     _time := _time self; _k := k;
     _nQ := _nQ self; _np := _np self; _nv := _nv self; _nu := _nu self;
     _nrho := _nrho self; _nX := _nX self; _nU := _nU self;
     _slice_Q := _slice_Q self; _slice_p := _slice_p self;
     _slice_v := _slice_v self; _slice_u := _slice_u self;
     _slice_rho := _slice_rho self |}.

Definition with_varint (vi : VarInt) (self : DSystem) : DSystem :=
  {| varint := vi; _xk := _xk self; _uk := _uk self;
     _time := _time self; _k := _k self;
     _nQ := _nQ self; _np := _np self; _nv := _nv self; _nu := _nu self;
     _nrho := _nrho self; _nX := _nX self; _nU := _nU self;
     _slice_Q := _slice_Q self; _slice_p := _slice_p self;
     _slice_v := _slice_v self; _slice_u := _slice_u self;
     _slice_rho := _slice_rho self |}.

(** The [time] setter: the squeezed array must be one-dimensional. *)
Definition set_time (t : vector) (self : DSystem) : result unit * DSystem :=
  let t' := squeeze t in
  if decide (ndim t' = 1) then (ret tt, with_time t' self)
  else (raise (AssertionError), self).

(** Methods that assign to the adapter or drive the integrator. *)
Definition method (A : Type) : Type := DSystem -> result A * DSystem.

Definition mret {A} (a : A) : method A := fun self => (inr a, self).

Definition mbind {A B} (m : method A) (k : A -> method B) : method B :=
  fun self =>
    match m self with
    | (inl e, self') => (inl e, self')
    | (inr a, self') => k a self'
    end.

(** A method that only reads the adapter. *)
Definition reading {A} (r : DSystem -> result A) : method A :=
  fun self => (r self, self).

(** An assignment to a field of the adapter. *)
Definition assign (g : DSystem -> DSystem) : method unit :=
  fun self => (inr tt, g self).

(** A call of a method of the integrator. *)
Definition on_varint {A} (op : VarInt -> result A * VarInt) : method A :=
  fun self => let '(r, vi) := op (varint self) in (r, with_varint vi self).

Notation "x <~ m ;; k" := (mbind m (fun x => k))
  (at level 20, m at level 99, k at level 200, right associativity) : py_scope.
Notation "' p <~ m ;; k" := (mbind m (fun x => match x with p => k end))
  (at level 20, p pattern, m at level 99, k at level 200, right associativity) : py_scope.

(** [DSystem.kf]. *)
Definition kf (self : DSystem) : result Z :=
  n <- len_time (_time self) ;; ret (Z.of_nat n - 1)%Z.

(** [X[s] = c] when [c is not None]. *)
Definition set_component (s : slice) (c : option vector) (X : vector) : result vector :=
  match c with
  | Some c => set_slice s c X
  | None => ret X
  end.

(** [DSystem.build_state]. *)
Definition build_state (self : DSystem) (Q p v : option vector) : result vector :=
  let X := zeros (_nX self) in
  X <- set_component (_slice_Q self) Q X ;;
  X <- set_component (_slice_p self) p X ;;
  X <- set_component (_slice_v self) v X ;;
  ret X.

(** [DSystem.build_input]. *)
Definition build_input (self : DSystem) (u rho : option vector) : result vector :=
  let U := zeros (_nU self) in
  U <- set_component (_slice_u self) u U ;;
  U <- set_component (_slice_rho self) rho U ;;
  ret U.

(** The body of the function [bad_arguments(self, reason)] nested in
    [build_trajectory]; it reads the arguments of [build_trajectory] and
    always raises. *)
Definition bad_arguments (Q p v u rho : option matrix) (self_ reason : string) : exn :=
  let line (s : string) (arg : string * option matrix) : string :=
    match snd arg with
    | None => (s ++ "  " ++ fst arg ++ ": None" ++ nl)%string
    | Some value =>
        (s ++ "  " ++ fst arg ++ ": " ++ repr_type Q ++ ", shape="
           ++ repr_shape value ++ nl)%string
    end in
  StandardError
    (foldl line (reason ++ nl ++ "Arguments: " ++ nl)%string
       [("Q", Q); ("p", p); ("v", v); ("u", u); ("rho", rho)]).

(** A call of [bad_arguments] with positional arguments: the function has
    two parameters and no default. *)
Definition call_bad_arguments (Q p v u rho : option matrix) (args : list string) : exn :=
  match args with
  | [a; b] => bad_arguments Q p v u rho a b
  | _ =>
      TypeError ("bad_arguments() takes exactly 2 arguments ("
                 ++ fmt_d (Z.of_nat (length args)) ++ " given)")%string
  end.

(** One of the five length checks of [build_trajectory]:
    [if c is not None and len(c) != len(self._time) - less: bad_arguments(...)]. *)
Definition check_length (self : DSystem) (Q p v u rho : option matrix)
    (name : string) (c : option matrix) (less : Z) : result unit :=
  match c with
  | None => ret tt
  | Some c =>
      n <- len_time (_time self) ;;
      if decide (Z.of_nat (length c) <> Z.of_nat n - less)%Z then
        n <- len_time (_time self) ;;
        raise (call_bad_arguments Q p v u rho
                 [("Invalid length for " ++ name ++ " (expected "
                   ++ fmt_d (Z.of_nat n - less) ++ ")")%string])
      else ret tt
  end.

(** [X[:, s] = c] when [c is not None]. *)
Definition set_component_cols (s : slice) (c : option matrix) (X : matrix) : result matrix :=
  match c with
  | Some c => set_cols s c X
  | None => ret X
  end.

(** [DSystem.build_trajectory]. *)
Definition build_trajectory (self : DSystem) (Q p v u rho : option matrix)
  : result (matrix * matrix) :=
  _ <- check_length self Q p v u rho "Q" Q 0 ;;
  _ <- check_length self Q p v u rho "p" p 0 ;;
  _ <- check_length self Q p v u rho "v" v 0 ;;
  _ <- check_length self Q p v u rho "u" u 1 ;;
  _ <- check_length self Q p v u rho "rho" rho 1 ;;
  n <- len_time (_time self) ;;
  let X := zeros2 n (_nX self) in
  n <- len_time (_time self) ;;
  U <- np_zeros2 (Z.of_nat n - 1) (_nU self) ;;
  X <- set_component_cols (_slice_Q self) Q X ;;
  X <- set_component_cols (_slice_p self) p X ;;
  X <- set_component_cols (_slice_v self) v X ;;
  U <- set_component_cols (_slice_u self) u U ;;
  U <- set_component_cols (_slice_rho self) rho U ;;
  ret (X, U).

(** [DSystem.split_state]: the name [nd] is bound nowhere in the module. *)
Definition split_state (self : DSystem) (X : option vector)
  : result (vector * vector * vector) :=
  X <- match X with
       | None => raise (NameError "nd")
       | Some X => ret X
       end ;;
  let Q := get_slice (_slice_Q self) X in
  let p := get_slice (_slice_p self) X in
  let v := get_slice (_slice_v self) X in
  ret (Q, p, v).

(** [DSystem.split_input]. *)
Definition split_input (self : DSystem) (U : option vector) : result (vector * vector) :=
  let U := match U with
           | None => zeros (nU self)
           | Some U => U
           end in
  let u := get_slice (_slice_u self) U in
  let rho := get_slice (_slice_rho self) U in
  ret (u, rho).

(** [DSystem.split_trajectory]. *)
Definition split_trajectory (self : DSystem) (X U : option matrix)
  : result (matrix * matrix * matrix * matrix * matrix) :=
  '(X, U) <-
    match X, U with
    | None, None =>
        n <- len_time (_time self) ;;
        let X := zeros2 n (nX self) in
        n <- len_time (_time self) ;;
        U <- np_zeros2 (Z.of_nat n - 1) (nU self) ;;
        ret (X, U)
    | None, Some U => ret (zeros2 (length U + 1) (nX self), U)
    | Some X, None => ret (X, zeros2 (length X + 1) (nU self))
    | Some X, Some U => ret (X, U)
    end ;;
  let Q := get_cols (_slice_Q self) X in
  let p := get_cols (_slice_p self) X in
  let v := get_cols (_slice_v self) X in
  let u := get_cols (_slice_u self) U in
  let rho := get_cols (_slice_rho self) U in
  ret (Q, p, v, u, rho).

(** [DSystem.set]. *)
Definition set `{Solver} (xk uk : option vector) (k : Z) (lambda_k : option vector)
  : method unit :=
  _ <~ assign (with_k k) ;;
  '(q1, p1, v1) <~ reading (fun self => split_state self xk) ;;
  '(u1, rho2) <~ reading (fun self => split_input self uk) ;;
  t1 <~ reading (fun self => time_item (_time self) (_k self + 0)) ;;
  t2 <~ reading (fun self => time_item (_time self) (_k self + 1)) ;;
  _ <~ on_varint (fun vi => (ret tt, initialize_from_state t1 q1 p1 lambda_k vi)) ;;
  on_varint (vi_step t2 u1 rho2).

(** [DSystem.step]. *)
Definition step `{Solver} (uk : option vector) : method unit :=
  _ <~ assign (fun self => with_k (_k self + 1) self) ;;
  '(u1, rho2) <~ reading (fun self => split_input self uk) ;;
  t2 <~ reading (fun self => time_item (_time self) (_k self + 1)) ;;
  on_varint (vi_step t2 u1 rho2).

(** [DSystem.f]. *)
Definition f (self : DSystem) : result vector :=
  q2 <- vi_q2 (varint self) ;;
  q1 <- vi_q1 (varint self) ;;
  t2 <- vi_t2 (varint self) ;;
  t1 <- vi_t1 (varint self) ;;
  let v2 := zip_with (fun q2 q1 => PrimFloat.div (PrimFloat.sub q2 q1) (PrimFloat.sub t2 t1))
              q2 q1 in
  let v2 := drop (length (dyn_configs (dsystem self))) v2 in
  q2 <- vi_q2 (varint self) ;;
  p2 <- vi_p2 (varint self) ;;
  build_state self (Some q2) (Some p2) (Some v2).

(** [self._time[self._k+1] - self._time[self._k+0]]. *)
Definition current_dt (self : DSystem) : result float :=
  t2 <- time_item (_time self) (_k self + 1) ;;
  t1 <- time_item (_time self) (_k self + 0) ;;
  ret (PrimFloat.sub t2 t1).

(** [DSystem.fdx]. *)
Definition fdx (self : DSystem) : result matrix :=
  dt <- current_dt self ;;
  let fdx := diag (vdiv_scalar (vmul_scalar (ones (_nX self)) (-1)%float) dt) in
  m <- q2_dq1 (varint self) ;;
  fdx <- set_block (_slice_Q self) (_slice_Q self) m fdx ;;
  m <- q2_dp1 (varint self) ;;
  fdx <- set_block (_slice_Q self) (_slice_p self) m fdx ;;
  m <- p2_dq1 (varint self) ;;
  fdx <- set_block (_slice_p self) (_slice_Q self) m fdx ;;
  m <- p2_dp1 (varint self) ;;
  fdx <- set_block (_slice_p self) (_slice_p self) m fdx ;;
  ret fdx.

(** [DSystem.fdu]. *)
Definition fdu (self : DSystem) : result matrix :=
  dt <- current_dt self ;;
  let fdu := zeros2 (_nX self) (_nU self) in
  m <- q2_du1 (varint self) ;;
  fdu <- set_block (_slice_Q self) (_slice_u self) m fdu ;;
  m <- q2_dk2 (varint self) ;;
  fdu <- set_block (_slice_Q self) (_slice_rho self) m fdu ;;
  m <- p2_du1 (varint self) ;;
  fdu <- set_block (_slice_p self) (_slice_u self) m fdu ;;
  m <- p2_dk2 (varint self) ;;
  fdu <- set_block (_slice_p self) (_slice_rho self) m fdu ;;
  fdu <- set_block (_slice_v self) (_slice_rho self)
           (diag (vdiv_scalar (vmul_scalar (ones (_nrho self)) 1%float) dt)) fdu ;;
  ret fdu.

(** [np.inner(zQ, q2_d()) + np.inner(zp, p2_d())] for a pair of second
    derivative accessors of the integrator. *)
Definition contracted `{Blas} (self : DSystem) (zQ zp : vector)
    (q2_d p2_d : VarInt -> result tensor3) : result matrix :=
  tq <- q2_d (varint self) ;;
  a <- inner zQ tq ;;
  tp <- p2_d (varint self) ;;
  b <- inner zp tp ;;
  madd a b.

(** [a[rs, cs].T] for an array [a] of [ncols] columns (a list of no rows
    does not record the column count, so it is passed). *)
Definition block_T (rs cs : slice) (ncols : nat) (a : matrix) : matrix :=
  transpose_rows (length (get_slice cs (zeros ncols))) (get_block rs cs a).

(** [DSystem.fdxdx]. *)
Definition fdxdx `{Blas} (self : DSystem) (z : vector) : result matrix :=
  let zQ := get_slice (_slice_Q self) z in
  let zp := get_slice (_slice_p self) z in
  let fdxdx := zeros2 (_nX self) (_nX self) in
  m <- contracted self zQ zp q2_dq1dq1 p2_dq1dq1 ;;
  fdxdx <- set_block (_slice_Q self) (_slice_Q self) m fdxdx ;;
  m <- contracted self zQ zp q2_dq1dp1 p2_dq1dp1 ;;
  fdxdx <- set_block (_slice_Q self) (_slice_p self) m fdxdx ;;
  fdxdx <- set_block (_slice_p self) (_slice_Q self)
             (block_T (_slice_Q self) (_slice_p self) (_nX self) fdxdx) fdxdx ;;
  m <- contracted self zQ zp q2_dp1dp1 p2_dp1dp1 ;;
  fdxdx <- set_block (_slice_p self) (_slice_p self) m fdxdx ;;
  ret fdxdx.

(** [DSystem.fdxdu]. *)
Definition fdxdu `{Blas} (self : DSystem) (z : vector) : result matrix :=
  let zQ := get_slice (_slice_Q self) z in
  let zp := get_slice (_slice_p self) z in
  let fdxdu := zeros2 (_nX self) (_nU self) in
  m <- contracted self zQ zp q2_dq1du1 p2_dq1du1 ;;
  fdxdu <- set_block (_slice_Q self) (_slice_u self) m fdxdu ;;
  m <- contracted self zQ zp q2_dq1dk2 p2_dq1dk2 ;;
  fdxdu <- set_block (_slice_Q self) (_slice_rho self) m fdxdu ;;
  m <- contracted self zQ zp q2_dp1du1 p2_dp1du1 ;;
  fdxdu <- set_block (_slice_p self) (_slice_u self) m fdxdu ;;
  m <- contracted self zQ zp q2_dp1dk2 p2_dp1dk2 ;;
  fdxdu <- set_block (_slice_p self) (_slice_rho self) m fdxdu ;;
  ret fdxdu.

(** [DSystem.fdudu]. *)
Definition fdudu `{Blas} (self : DSystem) (z : vector) : result matrix :=
  let zQ := get_slice (_slice_Q self) z in
  let zp := get_slice (_slice_p self) z in
  let fdudu := zeros2 (_nU self) (_nU self) in
  m <- contracted self zQ zp q2_du1du1 p2_du1du1 ;;
  fdudu <- set_block (_slice_u self) (_slice_u self) m fdudu ;;
  m <- contracted self zQ zp q2_du1dk2 p2_du1dk2 ;;
  fdudu <- set_block (_slice_u self) (_slice_rho self) m fdudu ;;
  fdudu <- set_block (_slice_rho self) (_slice_u self)
             (block_T (_slice_u self) (_slice_rho self) (_nU self) fdudu) fdudu ;;
  m <- contracted self zQ zp q2_dk2dk2 p2_dk2dk2 ;;
  fdudu <- set_block (_slice_rho self) (_slice_rho self) m fdudu ;;
  ret fdudu.

(** [a[i] += d] and [a[i] -= d] for an index [i] of a [range]. *)
Definition update_item (g : float -> float) (i : nat) (a : vector) : result vector :=
  match a !! i with
  | Some _ => ret (alter g i a)
  | None => raise (IndexError "index out of bounds")
  end.

(** [a[:, i] = v] for an index [i] of a [range]. *)
Definition set_col (i : nat) (v : vector) (a : matrix) : result matrix :=
  if forallb (fun r => Nat.ltb i (length r)) a then
    vs <- (if decide (length v = length a) then ret v
           else match v with
                | [x] => ret (replicate (length a) x)
                | _ => raise (ValueError "could not broadcast input array")
                end) ;;
    ret (zip_with (fun r x => <[i := x]> r) a vs)
  else raise (IndexError "index out of bounds").

(** [for i in l: acc = body(i, acc)]. *)
Fixpoint for_each {A} (l : list nat) (body : nat -> A -> method A) (acc : A) : method A :=
  match l with
  | [] => mret acc
  | i :: l => acc <~ body i acc ;; for_each l body acc
  end.

(** [(dfp-dfm)/(2*delta)]. *)
Definition central (dfp dfm : vector) (delta : float) : result vector :=
  d <- vsub dfp dfm ;; ret (vdiv_scalar d (PrimFloat.mul 2 delta)).

(** One pass of the first loop of [validate_derivatives]. *)
Definition perturb_x `{Solver} (xk uk : vector) (k : Z) (delta : float)
    (i1 : nat) (fdx_approx : matrix) : method matrix :=
  dxk <~ reading (fun _ => update_item (fun x => PrimFloat.add x delta) i1 xk) ;;
  _ <~ set (Some dxk) (Some uk) k None ;;
  dfp <~ reading f ;;
  dxk <~ reading (fun _ => update_item (fun x => PrimFloat.sub x delta) i1 xk) ;;
  _ <~ set (Some dxk) (Some uk) k None ;;
  dfm <~ reading f ;;
  reading (fun _ => col <- central dfp dfm delta ;; set_col i1 col fdx_approx).

(** One pass of the second loop of [validate_derivatives]. *)
Definition perturb_u `{Solver} (xk uk : vector) (k : Z) (delta : float)
    (i1 : nat) (fdu_approx : matrix) : method matrix :=
  duk <~ reading (fun _ => update_item (fun x => PrimFloat.add x delta) i1 uk) ;;
  _ <~ set (Some xk) (Some duk) k None ;;
  dfp <~ reading f ;;
  duk <~ reading (fun _ => update_item (fun x => PrimFloat.sub x delta) i1 uk) ;;
  _ <~ set (Some xk) (Some duk) k None ;;
  dfm <~ reading f ;;
  reading (fun _ => col <- central dfp dfm delta ;; set_col i1 col fdu_approx).

(** [norm(exact - approx)/norm(exact)]. *)
Definition relative_error (exact approx : matrix) : result float :=
  d <- msub exact approx ;; ret (PrimFloat.div (norm d) (norm exact)).

(** [DSystem.validate_derivatives]; its parameters [tolerance] and
    [verbose] are not read by the body. *)
Definition validate_derivatives `{Solver} (xk uk : vector) (k : Z) (delta : float)
  : method (float * float) :=
  _ <~ set (Some xk) (Some uk) k None ;;
  f0 <~ reading f ;;
  fdx_exact <~ reading fdx ;;
  fdu_exact <~ reading fdu ;;
  fdx_approx <~ (fun self =>
    for_each (seq 0 (nX self)) (perturb_x xk uk k delta)
      (zeros2 (nX self) (nX self)) self) ;;
  fdu_approx <~ (fun self =>
    for_each (seq 0 (nU self)) (perturb_u xk uk k delta)
      (zeros2 (nX self) (nU self)) self) ;;
  reading (fun _ =>
    fdx_error <- relative_error fdx_exact fdx_approx ;;
    fdu_error <- relative_error fdu_exact fdu_approx ;;
    ret (fdx_error, fdu_error)).

(** ** A sample system

    One dynamic configuration [x], one kinematic configuration [th] and one
    force input: a unit point mass pushed along a line next to a prescribed
    angle.  The step is explicit, so its sensitivities are known in closed
    form; it serves to run the adapter on concrete numbers. *)

Definition particle : MechSystem :=
  {| configs := ["x"; "th"];
     dyn_configs := ["x"];
     kin_configs := ["th"];
     inputs := ["force"];
     constraints := [] |}.

Definition wrt_dim (x : wrt) : nat :=
  match x with
  | Dq1 => 2
  | Dp1 | Du1 | Dk2 => 1
  end.

Definition output_dim (o : output) : nat :=
  match o with
  | Oq2 => 2
  | Op2 => 1
  end.

Definition particle_solve : Solver :=
  fun _ t1 q1 p1 _ t2 u1 k2 =>
    match q1, p1, u1, k2 with
    | [x1; th1], [px1], [u], [th2] =>
        let h := PrimFloat.sub t2 t1 in
        let px2 := PrimFloat.add px1 (PrimFloat.mul h u) in
        let x2 := PrimFloat.add x1 (PrimFloat.mul h px2) in
        ret {| sd_q2 := [x2; th2];
               sd_p2 := [px2];
               sd_lambda2 := [];
               sd_d1 := fun o x =>
                 match o, x with
                 | Oq2, Dq1 => [[1; 0]; [0; 0]]
                 | Oq2, Dp1 => [[h]; [0]]
                 | Oq2, Du1 => [[PrimFloat.mul h h]; [0]]
                 | Oq2, Dk2 => [[0]; [1]]
                 | Op2, Dq1 => [[0; 0]]
                 | Op2, Dp1 => [[1]]
                 | Op2, Du1 => [[h]]
                 | Op2, Dk2 => [[0]]
                 end%float;
               sd_d2 := fun o x y =>
                 replicate (wrt_dim x) (replicate (wrt_dim y) (zeros (output_dim o))) |}
    | _, _, _, _ => raise ConvergenceFailure
    end.

Definition particle_vi : VarInt := {| system := particle; phase := Fresh |}.

(** The adapter of the sample system over the times 0, 1, 2. *)
Definition particle_dsys : DSystem := DSystem_init particle_vi [0; 1; 2]%float.

(** ** The layout of the state and input vectors

    What [__init__] establishes between the cached dimensions, the slices
    and the system; no method assigns to these fields afterwards. *)

Record layout (self : DSystem) : Prop := {
  lay_nQ : _nQ self = length (configs (dsystem self));
  lay_np : _np self = length (dyn_configs (dsystem self));
  lay_nv : _nv self = length (kin_configs (dsystem self));
  lay_nu : _nu self = length (inputs (dsystem self));
  lay_nrho : _nrho self = length (kin_configs (dsystem self));
  lay_nX : _nX self = _nQ self + _np self + _nv self;
  lay_nU : _nU self = _nu self + _nrho self;
  lay_Q : _slice_Q self = Slice 0 (_nQ self);
  lay_p : _slice_p self = Slice (_nQ self) (_nQ self + _np self);
  lay_v : _slice_v self = Slice (_nQ self + _np self) (_nX self);
  lay_u : _slice_u self = Slice 0 (_nu self);
  lay_rho : _slice_rho self = Slice (_nu self) (_nU self)
}.

(** The configurations of a system are its dynamic ones followed by its
    kinematic ones. *)
Definition ordered_configs (sys : MechSystem) : Prop :=
  configs sys = dyn_configs sys ++ kin_configs sys.

(** A state and an input of the sample system. *)
Definition particle_x0 : vector := [1; 2; 3; 4]%float.
Definition particle_u0 : vector := [0.5; 2.5]%float.

(** An array of [r] rows and [c] columns whose entries are all zero. *)
Definition all_zero (r c : nat) (m : matrix) : Prop :=
  length m = r /\
  Forall (fun row => length row = c /\ Forall (fun x => x = 0%float) row) m.

(** [set(xk, uk, k)] returns, and leaves the adapter at index [k]. *)
Definition repositions `{Solver} (self : DSystem) (xk uk : vector) (k : Z) : Prop :=
  exists self', set (Some xk) (Some uk) k None self = (ret tt, self') /\ _k self' = k.

(** The values of the kinematic configurations in a configuration vector:
    those after the dynamic ones. *)
Definition kinematic (self : DSystem) (q : vector) : vector :=
  drop (_np self) q.

(** The velocity of the kinematic configurations over a step. *)
Definition finite_difference (self : DSystem) (s1 : state1) (t2 : float) (sd : StepData)
  : vector :=
  zip_with (fun rho2 rho1 =>
              PrimFloat.div (PrimFloat.sub rho2 rho1) (PrimFloat.sub t2 (s_t s1)))
    (kinematic self (sd_q2 sd)) (kinematic self (s_q s1)).

(** The sample adapter set at index 0. *)
Definition particle_set : DSystem :=
  snd (set (H := particle_solve) (Some particle_x0) (Some particle_u0) 0 None particle_dsys).

(** The call [bad_arguments(reason)] passes one argument to a function of
    two parameters, so every failed length check ends in the same
    [TypeError]. *)
Definition arity_error : exn :=
  TypeError "bad_arguments() takes exactly 2 arguments (1 given)".

(** A component is given and its length is not [n]. *)
Definition bad_length (c : option matrix) (n : Z) : Prop :=
  exists m, c = Some m /\ Z.of_nat (length m) <> n.

(** An array of [r] rows and [c] columns. *)
Definition has_shape (r c : nat) (m : matrix) : Prop :=
  length m = r /\ Forall (fun row => length row = c) m.

(** A slice of width [c] inside an axis of length [n]. *)
Definition slice_within (s : slice) (c n : nat) : Prop :=
  start s + c = stop s /\ stop s <= n.

(** Column [j] of a two-dimensional array. *)
Definition column (j : nat) (m : matrix) : vector :=
  map (fun row => default 0%float (row !! j)) m.

(** An adapter that differs from [self] at most in its index and in the
    state of its integrator. *)
Definition same_frame (s self : DSystem) : Prop :=
  (forall vi k, with_varint vi (with_k k s) = with_varint vi (with_k k self)) /\
  system (varint s) = system (varint self).

(** A cached step whose vectors and first derivatives have the system's
    dimensions. *)
Definition step_shapes (self : DSystem) (sd : StepData) : Prop :=
  length (sd_q2 sd) = _nQ self /\ length (sd_p2 sd) = _np self /\
  has_shape (_nQ self) (_nQ self) (sd_d1 sd Oq2 Dq1) /\
  has_shape (_nQ self) (_np self) (sd_d1 sd Oq2 Dp1) /\
  has_shape (_nQ self) (_nu self) (sd_d1 sd Oq2 Du1) /\
  has_shape (_nQ self) (_nrho self) (sd_d1 sd Oq2 Dk2) /\
  has_shape (_np self) (_nQ self) (sd_d1 sd Op2 Dq1) /\
  has_shape (_np self) (_np self) (sd_d1 sd Op2 Dp1) /\
  has_shape (_np self) (_nu self) (sd_d1 sd Op2 Du1) /\
  has_shape (_np self) (_nrho self) (sd_d1 sd Op2 Dk2).

(** The solver converges on every input of the system's dimensions, and
    the step it returns has the system's dimensions. *)
Definition solver_ok `{Solver} (self : DSystem) : Prop :=
  forall t1 q1 p1 lambda1 t2 u1 k2,
    length q1 = _nQ self -> length p1 = _np self ->
    length u1 = _nu self -> length k2 = _nrho self ->
    exists sd,
      solve (dsystem self) t1 q1 p1 lambda1 t2 u1 k2 = ret sd /\ step_shapes self sd.

(** The state [f()] returns once the adapter is set at [(x, u, k)]. *)
Definition f_at `{Solver} (self : DSystem) (x u : vector) (k : Z) : result vector :=
  let '(r, self') := set (Some x) (Some u) k None self in
  _ <- r ;; f self'.

(** The central finite difference of [f] in component [i] of the state:
    [f] at the state with [delta] added to the component, minus [f] at the
    state with [delta] subtracted from it, over [2*delta], entry by
    entry. *)
Definition central_difference_x `{Solver} (self : DSystem) (xk uk : vector) (k : Z)
    (delta : float) (i : nat) : result vector :=
  dfp <- f_at self (alter (fun x => PrimFloat.add x delta) i xk) uk k ;;
  dfm <- f_at self (alter (fun x => PrimFloat.sub x delta) i xk) uk k ;;
  ret (zip_with
         (fun fp fm => PrimFloat.div (PrimFloat.sub fp fm) (PrimFloat.mul 2 delta))
         dfp dfm).

(** The central finite difference of [f] in component [i] of the input. *)
Definition central_difference_u `{Solver} (self : DSystem) (xk uk : vector) (k : Z)
    (delta : float) (i : nat) : result vector :=
  dfp <- f_at self xk (alter (fun x => PrimFloat.add x delta) i uk) k ;;
  dfm <- f_at self xk (alter (fun x => PrimFloat.sub x delta) i uk) k ;;
  ret (zip_with
         (fun fp fm => PrimFloat.div (PrimFloat.sub fp fm) (PrimFloat.mul 2 delta))
         dfp dfm).

(** The Frobenius norm of a matrix: the square root of the sum of the
    squares of the absolute values of its entries, taken row after row. *)
Definition frobenius (m : matrix) : float :=
  PrimFloat.sqrt
    (foldl (fun s x => PrimFloat.add s (PrimFloat.mul (PrimFloat.abs x) (PrimFloat.abs x)))
       0%float (concat m)).

(** The relative error of [approx] against [exact] in the Frobenius norm:
    the norm of their difference over the norm of [exact]. *)
Definition relative_frobenius (exact approx : matrix) : float :=
  PrimFloat.div (frobenius (zip_with (zip_with PrimFloat.sub) exact approx))
    (frobenius exact).

(** The adapter once [set(x, u, k)] has stepped the integrator from [t1]
    to [t2] with the converged step [sd]. *)
Definition stepped_adapter (self : DSystem) (k : Z) (x : vector) (t1 t2 : float)
    (sd : StepData) : DSystem :=
  with_varint
    {| system := dsystem self;
       phase := Stepped
         {| s_t := t1;
            s_q := get_slice (_slice_Q self) x;
            s_p := get_slice (_slice_p self) x;
            s_lambda := zeros (length (constraints (dsystem self))) |} t2 sd |}
    (with_k k self).

(** A component of a state or input vector, zero when it is omitted. *)
Definition filled (n : nat) (c : option vector) : vector := default (zeros n) c.

(** A component is omitted or has [n] entries. *)
Definition fits (n : nat) (c : option vector) : Prop :=
  forall x, c = Some x -> length x = n.

(** Two arrays of as many rows side by side. *)
Definition hcat (a b : matrix) : matrix := zip_with app a b.

(** A component trajectory, zero when it is omitted. *)
Definition filled2 (r c : nat) (m : option matrix) : matrix := default (zeros2 r c) m.

(** A component trajectory is omitted or has [r] rows and [c] columns. *)
Definition fits2 (r c : nat) (m : option matrix) : Prop :=
  forall x, m = Some x -> has_shape r c x.

(** The sizes of the four groups of quantities and of the two outputs of
    the integrator. *)
Definition wrt_size (self : DSystem) (x : wrt) : nat :=
  match x with
  | Dq1 => _nQ self
  | Dp1 => _np self
  | Du1 => _nu self
  | Dk2 => _nrho self
  end.

Definition output_size (self : DSystem) (o : output) : nat :=
  match o with
  | Oq2 => _nQ self
  | Op2 => _np self
  end.

(** A three-dimensional array of shape [(a, b, c)]. *)
Definition has_shape3 (a b c : nat) (t : tensor3) : Prop :=
  length t = a /\ Forall (has_shape b c) t.

(** A cached step whose second derivatives have the system's dimensions,
    the output on the last axis. *)
Definition step_shapes2 (self : DSystem) (sd : StepData) : Prop :=
  forall o x y,
    has_shape3 (wrt_size self x) (wrt_size self y) (output_size self o) (sd_d2 sd o x y).

(** The second derivatives of [q2] and [p2] by [x] and [y], contracted
    against the [Q] and [p] slices of a covector and added. *)
Definition hvp `{Blas} (self : DSystem) (sd : StepData) (z : vector) (x y : wrt) : matrix :=
  zip_with (zip_with PrimFloat.add)
    (map (map (dot (get_slice (_slice_Q self) z))) (sd_d2 sd Oq2 x y))
    (map (map (dot (get_slice (_slice_p self) z))) (sd_d2 sd Op2 x y)).

(** The arguments of a call
    [trep.save_trajectory(filename, system, time, Q, p, v, u, rho)]; the
    function is not part of dsystem.py. *)
Record saved_trajectory : Type := {
  sv_filename : string;
  sv_system : MechSystem;
  sv_time : time_array;
  sv_Q : matrix;
  sv_p : matrix;
  sv_v : matrix;
  sv_u : matrix;
  sv_rho : matrix
}.

(** [DSystem.save_state_trajectory]: the call of [trep.save_trajectory] it
    makes. *)
Definition save_state_trajectory (self : DSystem) (filename : string)
    (X U : option matrix) : result saved_trajectory :=
  '(Q, p, v, u, rho) <- split_trajectory self X U ;;
  ret {| sv_filename := filename; sv_system := dsystem self; sv_time := _time self;
         sv_Q := Q; sv_p := p; sv_v := v; sv_u := u; sv_rho := rho |}.

(** What [trep.load_trajectory(filename, system)] returns: the time vector
    and the five component trajectories. *)
Record loaded_trajectory : Type := {
  ld_t : vector;
  ld_Q : option matrix;
  ld_p : option matrix;
  ld_v : option matrix;
  ld_u : option matrix;
  ld_rho : option matrix
}.

(** [DSystem.load_state_trajectory], given the result of the call of
    [trep.load_trajectory]. *)
Definition load_state_trajectory (loaded : result loaded_trajectory)
  : method (matrix * matrix) :=
  l <~ reading (fun _ => loaded) ;;
  _ <~ set_time (ld_t l) ;;
  reading (fun self => build_trajectory self (ld_Q l) (ld_p l) (ld_v l) (ld_u l) (ld_rho l)).

(** ** A system without inputs

    One dynamic configuration and nothing else: a rotor that turns
    freely.  Its input vector is empty. *)

Definition rotor : MechSystem :=
  {| configs := ["th"];
     dyn_configs := ["th"];
     kin_configs := [];
     inputs := [];
     constraints := [] |}.

Definition rotor_dim (x : wrt) : nat :=
  match x with
  | Dq1 | Dp1 => 1
  | Du1 | Dk2 => 0
  end.

Definition rotor_solve : Solver :=
  fun _ t1 q1 p1 _ t2 u1 k2 =>
    match q1, p1, u1, k2 with
    | [th1], [p1], [], [] =>
        let h := PrimFloat.sub t2 t1 in
        let th2 := PrimFloat.add th1 (PrimFloat.mul h p1) in
        ret {| sd_q2 := [th2];
               sd_p2 := [p1];
               sd_lambda2 := [];
               sd_d1 := fun o x =>
                 match o, x with
                 | Oq2, Dq1 => [[1]]
                 | Oq2, Dp1 => [[h]]
                 | Op2, Dq1 => [[0]]
                 | Op2, Dp1 => [[1]]
                 | _, _ => [[]]
                 end%float;
               sd_d2 := fun o x y =>
                 replicate (rotor_dim x) (replicate (rotor_dim y) (zeros 1)) |}
    | _, _, _, _ => raise ConvergenceFailure
    end.

(** The adapter of the rotor over the times 0, 1, 2. *)
Definition rotor_dsys : DSystem :=
  DSystem_init {| system := rotor; phase := Fresh |} [0; 1; 2]%float.

(** ** A step with curvature

    A system with two force inputs beside one dynamic and one kinematic
    configuration, and a stepped adapter of it whose cached second
    derivatives are small whole numbers, all different within a tensor:
    every contraction with a covector of whole numbers is exact whatever
    the kernel, and a block can be told from its transpose. *)

Definition pusher : MechSystem :=
  {| configs := ["x"; "th"];
     dyn_configs := ["x"];
     kin_configs := ["th"];
     inputs := ["f1"; "f2"];
     constraints := [] |}.

Definition pusher_dim (x : wrt) : nat :=
  match x with
  | Dq1 | Du1 => 2
  | Dp1 | Dk2 => 1
  end.

Definition whole (n : nat) : float := Nat.iter n (fun x => PrimFloat.add x 1) 0%float.

Definition ramp (start a b c : nat) : tensor3 :=
  map (fun i =>
         map (fun j => map (fun l => whole (start + 4 * i + 2 * j + l)) (seq 0 c))
           (seq 0 b))
    (seq 0 a).

Definition wrt_code (x : wrt) : nat :=
  match x with
  | Dq1 => 0
  | Dp1 => 1
  | Du1 => 2
  | Dk2 => 3
  end.

Definition curved_step : StepData :=
  {| sd_q2 := [1; 2]%float;
     sd_p2 := [3]%float;
     sd_lambda2 := [];
     sd_d1 := fun o x => zeros2 (output_dim o) (pusher_dim x);
     sd_d2 := fun o x y =>
       ramp (match o with Oq2 => 1 | Op2 => 2 end + 8 * (4 * wrt_code x + wrt_code y))
         (pusher_dim x) (pusher_dim y) (output_dim o) |}.

Definition pusher_curved : DSystem :=
  with_varint
    {| system := pusher;
       phase := Stepped {| s_t := 0%float; s_q := [1; 2]%float; s_p := [3]%float;
                           s_lambda := [] |} 1%float curved_step |}
    (DSystem_init {| system := pusher; phase := Fresh |} [0; 1; 2]%float).

(** * Properties *)

Example get_slice_ex : get_slice (Slice 1 3) [1; 2; 3; 4]%float = [2; 3]%float.
Proof. reflexivity. Qed.

Example diag_ex : diag [1; 2]%float = [[1; 0]; [0; 2]]%float.
Proof. reflexivity. Qed.

Example norm_ex : norm [[3; 0]; [0; 4]]%float = 5%float.
Proof. vm_compute. reflexivity. Qed.

Lemma layout_init (vi : VarInt) (t : vector) : layout (DSystem_init vi t).
Proof. by split. Qed.

Lemma layout_with_k (k : Z) (self : DSystem) : layout self -> layout (with_k k self).
Proof. by intros []; split. Qed.

Lemma layout_with_time (t : time_array) (self : DSystem) :
  layout self -> layout (with_time t self).
Proof. by intros []; split. Qed.

Lemma layout_with_varint (vi : VarInt) (self : DSystem) :
  system vi = system (varint self) -> layout self -> layout (with_varint vi self).
Proof.
  intros Hsys []; split; try done; unfold dsystem; simpl; by rewrite Hsys.
Qed.

(** ** Slices of concatenations *)

Section Slices.
Context {A : Type}.
Implicit Types a b c : list A.

Lemma get_slice_middle a b c lo hi :
  length a = lo -> lo + length b = hi ->
  get_slice (Slice lo hi) (a ++ b ++ c) = b.
Proof.
  intros Ha Hb. unfold get_slice; simpl.
  rewrite <- Ha, drop_app_length.
  replace (hi - length a) with (length b) by lia.
  by rewrite take_app_length.
Qed.

Lemma get_slice_prefix b c hi :
  length b = hi -> get_slice (Slice 0 hi) (b ++ c) = b.
Proof. intros. by apply (get_slice_middle [] b c). Qed.

Lemma get_slice_suffix a b lo hi :
  length a = lo -> lo + length b = hi ->
  get_slice (Slice lo hi) (a ++ b) = b.
Proof.
  intros. rewrite <- (app_nil_r b) at 1. by apply get_slice_middle.
Qed.

Lemma length_get_slice a lo hi :
  length (get_slice (Slice lo hi) a) = Nat.min (hi - lo) (length a - lo).
Proof. unfold get_slice; simpl. by rewrite length_take, length_drop. Qed.
End Slices.

Lemma set_slice_middle (a b c v : vector) lo hi :
  length a = lo -> lo + length b = hi -> length v = length b ->
  set_slice (Slice lo hi) v (a ++ b ++ c) = ret (a ++ v ++ c).
Proof.
  intros Ha Hb Hv. unfold set_slice.
  rewrite (get_slice_middle a b c lo hi Ha Hb); simpl.
  rewrite decide_True by done.
  rewrite <- Ha, take_app_length.
  by rewrite (assoc_L (++) a b c), <- length_app, drop_app_length.
Qed.

Lemma set_slice_prefix (b c v : vector) hi :
  length b = hi -> length v = length b ->
  set_slice (Slice 0 hi) v (b ++ c) = ret (v ++ c).
Proof. intros. by apply (set_slice_middle [] b c v 0 hi). Qed.

Lemma set_slice_suffix (a b v : vector) lo hi :
  length a = lo -> lo + length b = hi -> length v = length b ->
  set_slice (Slice lo hi) v (a ++ b) = ret (a ++ v).
Proof.
  intros Ha Hb Hv.
  pose proof (set_slice_middle a b [] v lo hi Ha Hb Hv) as Hm.
  by rewrite !app_nil_r in Hm.
Qed.

Lemma zeros_add (n m : nat) : zeros (n + m) = zeros n ++ zeros m.
Proof. apply replicate_add. Qed.

Lemma length_zeros (n : nat) : length (zeros n) = n.
Proof. apply length_replicate. Qed.

(** [build_state] of three components of the declared lengths is their
    concatenation. *)
Lemma build_state_app (self : DSystem) (Q p v : vector) :
  layout self ->
  length Q = _nQ self -> length p = _np self -> length v = _nv self ->
  build_state self (Some Q) (Some p) (Some v) = ret (Q ++ p ++ v).
Proof.
  intros L HQ Hp Hv. unfold build_state, set_component.
  rewrite (lay_Q _ L), (lay_p _ L), (lay_v _ L), (lay_nX _ L).
  rewrite <- (assoc_L Nat.add), !zeros_add.
  rewrite set_slice_prefix by (by rewrite ?length_zeros).
  simpl.
  rewrite set_slice_middle by (by rewrite ?length_zeros).
  simpl.
  rewrite (assoc_L (++) Q p).
  rewrite set_slice_suffix by (rewrite ?length_app, ?length_zeros; lia).
  simpl. by rewrite <- (assoc_L (++)).
Qed.

(** [split_state] of a concatenation of three components of the declared
    lengths gives them back. *)
Lemma split_state_app (self : DSystem) (Q p v : vector) :
  layout self ->
  length Q = _nQ self -> length p = _np self -> length v = _nv self ->
  split_state self (Some (Q ++ p ++ v)) = ret (Q, p, v).
Proof.
  intros L HQ Hp Hv. unfold split_state; simpl.
  rewrite (lay_Q _ L), (lay_p _ L), (lay_v _ L), (lay_nX _ L).
  rewrite (get_slice_prefix Q) by done.
  rewrite (get_slice_middle Q p v) by (done || lia).
  rewrite (assoc_L (++) Q p v).
  rewrite (get_slice_suffix (Q ++ p) v) by (rewrite ?length_app; lia).
  done.
Qed.

(** C5: for components of the declared lengths (Q of length nQ, p of the
    number of dynamic configurations, v of the number of kinematic ones),
    building the state vector and splitting it gives the components back. *)
Theorem split_state_build_state (self : DSystem) (Q p v : vector) :
  layout self ->
  length Q = _nQ self -> length p = _np self -> length v = _nv self ->
  (X <- build_state self (Some Q) (Some p) (Some v) ;; split_state self (Some X))
  = ret (Q, p, v).
Proof.
  intros L HQ Hp Hv.
  rewrite build_state_app by done. simpl.
  by apply split_state_app.
Qed.

Lemma split_state_build_state_witness :
  (X <- build_state particle_dsys (Some [1; 2]%float) (Some [3]%float) (Some [4]%float) ;;
   split_state particle_dsys (Some X))
  = ret ([1; 2]%float, [3]%float, [4]%float).
Proof.
  apply (split_state_build_state particle_dsys);
    [ apply layout_init | reflexivity | reflexivity | reflexivity ].
Defined.

(** ** Omitted arguments *)

Lemma split_input_None (self : DSystem) :
  layout self ->
  split_input self None = ret (zeros (_nu self), zeros (_nrho self)).
Proof.
  intros L. unfold split_input, nU.
  rewrite (lay_u _ L), (lay_rho _ L), (lay_nU _ L), zeros_add.
  rewrite get_slice_prefix by apply length_zeros.
  rewrite get_slice_suffix by (rewrite ?length_zeros; lia).
  done.
Qed.

(** C9: [split_state] with [X] omitted raises the unbound-name error for
    [nd] and returns no value, while [split_input] with [U] omitted returns
    the zero [u] and [rho]. *)
Theorem split_state_None_unbound_name (self : DSystem) :
  layout self ->
  split_state self None = raise (NameError "nd") /\
  (forall Qpv, split_state self None <> ret Qpv) /\
  split_input self None = ret (zeros (_nu self), zeros (_nrho self)).
Proof.
  intros L. split; [done | split; [done | by apply split_input_None]].
Qed.

Lemma split_state_None_unbound_name_witness :
  split_state particle_dsys None = raise (NameError "nd") /\
  (forall Qpv, split_state particle_dsys None <> ret Qpv) /\
  split_input particle_dsys None = ret ([0]%float, [0]%float).
Proof. apply (split_state_None_unbound_name particle_dsys), layout_init. Defined.

(** ** Trajectories *)

Lemma squeeze_long (t : vector) : 2 <= length t -> squeeze t = Time1 t.
Proof. destruct t as [|x [|y t]]; simpl; (lia || done). Qed.

Lemma all_zero_zeros2 (r c : nat) : all_zero r c (zeros2 r c).
Proof.
  split; [apply length_replicate|].
  apply Forall_replicate. split; [apply length_zeros|].
  by apply Forall_replicate.
Qed.

(** C4, as the code has it: for a time vector of [n >= 2] entries,
    [build_trajectory()] with no argument returns a state trajectory of
    shape [(n, nX)] and an input trajectory of shape [(n-1, nU)], every
    entry zero. *)
Theorem build_trajectory_no_arguments (self : DSystem) (t : vector) :
  _time self = squeeze t -> 2 <= length t ->
  exists X U,
    build_trajectory self None None None None None = ret (X, U) /\
    all_zero (length t) (nX self) X /\
    all_zero (length t - 1) (nU self) U.
Proof.
  intros Ht Hn. rewrite squeeze_long in Ht by done.
  exists (zeros2 (length t) (nX self)), (zeros2 (length t - 1) (nU self)).
  split; [|split; apply all_zero_zeros2].
  unfold build_trajectory, check_length, np_zeros2; simpl.
  rewrite Ht; simpl.
  rewrite decide_False by lia. simpl.
  by replace (Z.to_nat (Z.of_nat (length t) - 1)) with (length t - 1) by lia.
Qed.

Lemma build_trajectory_no_arguments_witness :
  exists X U,
    build_trajectory particle_dsys None None None None None = ret (X, U) /\
    all_zero 3 4 X /\ all_zero 2 2 U.
Proof.
  apply (build_trajectory_no_arguments particle_dsys [0; 1; 2]%float);
    [ reflexivity | simpl; lia ].
Defined.

(** C4 as stated fails for the time vector of one entry: squeezed to a
    zero-dimensional array it has no length, and [build_trajectory()]
    raises instead of returning a state trajectory of shape [(1, nX)] and
    an input trajectory of shape [(0, nU)]. *)
Lemma build_trajectory_single_time :
  build_trajectory (DSystem_init particle_vi [0]%float) None None None None None
  = raise (TypeError "len() of unsized object") /\
  ~ (exists X U,
       build_trajectory (DSystem_init particle_vi [0]%float) None None None None None
       = ret (X, U) /\
       all_zero 1 (nX (DSystem_init particle_vi [0]%float)) X /\
       all_zero 0 (nU (DSystem_init particle_vi [0]%float)) U).
Proof.
  split; [reflexivity|]. intros (X & U & Hb & _). discriminate Hb.
Qed.

Lemma check_length_cases (self : DSystem) (ts : vector) Q p v u rho name c less :
  _time self = Time1 ts ->
  check_length self Q p v u rho name c less =
    match c with
    | Some m =>
        if decide (Z.of_nat (length m) <> Z.of_nat (length ts) - less)%Z
        then raise arity_error else ret tt
    | None => ret tt
    end.
Proof.
  intros Ht. unfold check_length. destruct c as [m|]; [|done].
  rewrite Ht; simpl. by case_decide.
Qed.

(** Whatever the lengths, a mismatch makes [build_trajectory] raise, and
    the exception is the arity error, not the report it was to carry. *)
Lemma build_trajectory_mismatch (self : DSystem) (ts : vector) (Q p v u rho : option matrix) :
  _time self = Time1 ts ->
  bad_length Q (Z.of_nat (length ts)) \/ bad_length p (Z.of_nat (length ts)) \/
  bad_length v (Z.of_nat (length ts)) \/ bad_length u (Z.of_nat (length ts) - 1) \/
  bad_length rho (Z.of_nat (length ts) - 1) ->
  build_trajectory self Q p v u rho = raise arity_error.
Proof.
  intros Ht Hbad. unfold build_trajectory.
  rewrite !(check_length_cases self ts) by done.
  destruct Q as [Q|], p as [p|], v as [v|], u as [u|], rho as [rho|];
    repeat case_decide; simpl; try done;
    exfalso;
    destruct Hbad as [(m & Hm & Hne)|[(m & Hm & Hne)|[(m & Hm & Hne)|
                     [(m & Hm & Hne)|(m & Hm & Hne)]]]];
    simplify_eq; lia.
Qed.

(** C3: with three time steps and a [Q] of two rows, [build_trajectory]
    raises, but the exception is the [TypeError] of the call of
    [bad_arguments] with one argument for two parameters: no error with the
    expected length is reported. *)
Theorem build_trajectory_short_Q :
  build_trajectory particle_dsys (Some [[1; 2]; [3; 4]]%float) None None None None
  = raise (TypeError "bad_arguments() takes exactly 2 arguments (1 given)") /\
  (forall msg,
     build_trajectory particle_dsys (Some [[1; 2]; [3; 4]]%float) None None None None
     <> raise (StandardError msg)).
Proof.
  assert (build_trajectory particle_dsys (Some [[1; 2]; [3; 4]]%float) None None None None
          = raise arity_error) as ->.
  { apply (build_trajectory_mismatch _ [0; 1; 2]%float); [done|].
    left. eexists. split; [done|]. simpl. lia. }
  by split.
Qed.

(** With [U] omitted, [split_trajectory] fills the input trajectory with
    one row more than the state trajectory has. *)
Lemma split_trajectory_U_omitted (self : DSystem) (X : matrix) :
  exists Q p v u rho,
    split_trajectory self (Some X) None = ret (Q, p, v, u, rho) /\
    length Q = length X /\ length u = length X + 1 /\ length rho = length X + 1.
Proof.
  unfold split_trajectory; simpl. do 5 eexists. split; [done|].
  unfold get_cols, zeros2. by rewrite !length_map, !length_replicate.
Qed.

(** C6: with three time steps, a state trajectory of three rows and [U]
    omitted, the [u] and [rho] that [split_trajectory] returns have four
    rows, not the two of an input trajectory. *)
Theorem split_trajectory_U_omitted_length :
  exists Q p v u rho,
    split_trajectory particle_dsys (Some (zeros2 3 4)) None = ret (Q, p, v, u, rho) /\
    len_time (_time particle_dsys) = ret 3 /\
    length u = 4 /\ length rho = 4.
Proof. by do 5 eexists. Qed.

(** ** Second derivatives *)

(** C7: the second-derivative accessors read the covector through its [Q]
    and [p] slices only: two covectors that agree on these slices give the
    same [fdxdx], [fdxdu] and [fdudu]. *)
Theorem second_derivatives_ignore_v `{Blas} (self : DSystem) (z z' : vector) :
  get_slice (_slice_Q self) z = get_slice (_slice_Q self) z' ->
  get_slice (_slice_p self) z = get_slice (_slice_p self) z' ->
  fdxdx self z = fdxdx self z' /\
  fdxdu self z = fdxdu self z' /\
  fdudu self z = fdudu self z'.
Proof.
  intros HQ Hp. unfold fdxdx, fdxdu, fdudu. by rewrite HQ, Hp.
Qed.

(** ** Positioning the adapter *)

Lemma kf_Time1 (self : DSystem) (ts : vector) :
  _time self = Time1 ts -> kf self = ret (Z.of_nat (length ts) - 1)%Z.
Proof. intros Ht. unfold kf. by rewrite Ht. Qed.

Lemma get_item_in_range (a : vector) (i : Z) :
  (0 <= i < Z.of_nat (length a))%Z ->
  exists x, a !! Z.to_nat i = Some x /\ get_item a i = ret x.
Proof.
  intros Hi. unfold get_item, py_index. rewrite decide_True by done. simpl.
  destruct (lookup_lt_is_Some_2 a (Z.to_nat i)) as [x Hx]; [lia|].
  exists x. by rewrite Hx.
Qed.

Lemma get_item_error (a : vector) (i : Z) (e : exn) :
  get_item a i = inl e -> fits_long i -> e = IndexError "index out of bounds".
Proof.
  unfold get_item. intros Hg Hi. destruct (py_index _ _) as [j|].
  - destruct (a !! j); [done|by injection Hg as <-].
  - rewrite decide_True in Hg by done. by injection Hg as <-.
Qed.

Lemma get_item_length (a : vector) :
  (Z.of_nat (length a) < 2 ^ 63)%Z ->
  get_item a (Z.of_nat (length a)) = raise (IndexError "index out of bounds").
Proof.
  intros Hn. unfold get_item, py_index. rewrite !decide_False by lia.
  rewrite decide_True; [done|]. unfold fits_long. lia.
Qed.

Lemma second_derivatives_ignore_v_witness :
  fdxdx (H := dot_in_order) particle_set [1; 1; 1; 1]%float
  = fdxdx (H := dot_in_order) particle_set [1; 1; 1; 9]%float /\
  fdxdu (H := dot_in_order) particle_set [1; 1; 1; 1]%float
  = fdxdu (H := dot_in_order) particle_set [1; 1; 1; 9]%float /\
  fdudu (H := dot_in_order) particle_set [1; 1; 1; 1]%float
  = fdudu (H := dot_in_order) particle_set [1; 1; 1; 9]%float.
Proof.
  apply (second_derivatives_ignore_v (H := dot_in_order) particle_set); reflexivity.
Defined.

(** [set] at an index whose successor is an index of the time vector: both
    reads succeed and the integrator is started at [time[k]] and stepped to
    [time[k+1]]. *)
Lemma set_in_range `{Solver} (self : DSystem) (ts xk uk : vector) (k : Z)
    (lambda_k : option vector) :
  _time self = Time1 ts -> (0 <= k)%Z -> (k + 1 < Z.of_nat (length ts))%Z ->
  exists t1 t2,
    ts !! Z.to_nat k = Some t1 /\ ts !! Z.to_nat (k + 1) = Some t2 /\
    set (Some xk) (Some uk) k lambda_k self =
      on_varint
        (fun vi =>
           vi_step t2 (get_slice (_slice_u self) uk) (get_slice (_slice_rho self) uk)
             (initialize_from_state t1 (get_slice (_slice_Q self) xk)
                (get_slice (_slice_p self) xk) lambda_k vi))
        (with_k k self).
Proof.
  intros Ht H0 H1.
  destruct (get_item_in_range ts k) as (t1 & Hl1 & Hg1); [lia|].
  destruct (get_item_in_range ts (k + 1)) as (t2 & Hl2 & Hg2); [lia|].
  exists t1, t2. split; [done|split; [done|]].
  unfold set, mbind, assign, reading, on_varint, split_state, split_input; simpl.
  rewrite Ht; simpl. rewrite Z.add_0_r, Hg1, Hg2. simpl.
  by destruct (vi_step _ _ _ _).
Qed.

(** [set] at the last index: the read of [time[k+1]] is outside the time
    vector; the index has been assigned, the integrator is untouched. *)
Lemma set_at_kf `{Solver} (self : DSystem) (ts xk uk : vector)
    (lambda_k : option vector) :
  _time self = Time1 ts -> (Z.of_nat (length ts) < 2 ^ 63)%Z ->
  set (Some xk) (Some uk) (Z.of_nat (length ts) - 1) lambda_k self =
    (raise (IndexError "index out of bounds"), with_k (Z.of_nat (length ts) - 1) self).
Proof.
  intros Ht Hn.
  unfold set, mbind, assign, reading, on_varint, split_state, split_input; simpl.
  rewrite Ht; simpl. rewrite Z.add_0_r.
  replace (Z.of_nat (length ts) - 1 + 1)%Z with (Z.of_nat (length ts)) by lia.
  rewrite get_item_length by done.
  destruct (get_item ts (Z.of_nat (length ts) - 1)) as [e|t1] eqn:E; [|done].
  rewrite (get_item_error _ _ _ E); [done|]. unfold fits_long. lia.
Qed.

(** What the code does around [kf()], for a time vector kept as a
    one-dimensional array: [kf()] is [len(time) - 1]; for every index [k]
    with [0 <= k < kf()], [set(X[k], U[k], k)] reads [time[k]] and
    [time[k+1]], both entries of the time vector, starts the integrator at
    the first, steps it to the second and leaves the adapter at index [k];
    at [k = kf()] the read of [time[k+1]] is outside the time vector and
    [set] raises [IndexError]. *)
Lemma kf_last_state_set_below `{Solver} (self : DSystem) (ts xk uk : vector)
    (lambda_k : option vector) :
  _time self = Time1 ts -> (Z.of_nat (length ts) < 2 ^ 63)%Z ->
  kf self = ret (Z.of_nat (length ts) - 1)%Z /\
  (forall k : Z, (0 <= k)%Z -> (k < Z.of_nat (length ts) - 1)%Z ->
     exists t1 t2,
       ts !! Z.to_nat k = Some t1 /\ ts !! Z.to_nat (k + 1) = Some t2 /\
       set (Some xk) (Some uk) k lambda_k self =
         on_varint
           (fun vi =>
              vi_step t2 (get_slice (_slice_u self) uk) (get_slice (_slice_rho self) uk)
                (initialize_from_state t1 (get_slice (_slice_Q self) xk)
                   (get_slice (_slice_p self) xk) lambda_k vi))
           (with_k k self) /\
       _k (snd (set (Some xk) (Some uk) k lambda_k self)) = k) /\
  set (Some xk) (Some uk) (Z.of_nat (length ts) - 1) lambda_k self =
    (raise (IndexError "index out of bounds"), with_k (Z.of_nat (length ts) - 1) self).
Proof.
  intros Ht Hn. split; [by apply kf_Time1|]. split; [|by apply set_at_kf].
  intros k H0 H1.
  destruct (set_in_range self ts xk uk k lambda_k Ht H0) as (t1 & t2 & Hl1 & Hl2 & Hset);
    [lia|].
  exists t1, t2. repeat split; try done.
  rewrite Hset. unfold on_varint. by destruct (vi_step _ _ _ _).
Qed.

Lemma kf_last_state_set_below_witness :
  kf particle_dsys = ret 2%Z /\
  (forall k : Z, (0 <= k)%Z -> (k < 2)%Z ->
     exists t1 t2,
       [0; 1; 2]%float !! Z.to_nat k = Some t1 /\
       [0; 1; 2]%float !! Z.to_nat (k + 1) = Some t2 /\
       set (H := particle_solve) (Some particle_x0) (Some particle_u0) k None particle_dsys =
         on_varint
           (fun vi =>
              vi_step (H := particle_solve) t2 [0.5]%float [2.5]%float
                (initialize_from_state t1 [1; 2]%float [3]%float None vi))
           (with_k k particle_dsys) /\
       _k (snd (set (H := particle_solve) (Some particle_x0) (Some particle_u0) k None
                  particle_dsys)) = k) /\
  set (H := particle_solve) (Some particle_x0) (Some particle_u0) 2 None particle_dsys =
    (raise (IndexError "index out of bounds"), with_k 2 particle_dsys).
Proof.
  apply (kf_last_state_set_below (H := particle_solve) particle_dsys [0; 1; 2]%float
           particle_x0 particle_u0 None);
    [ reflexivity | simpl; lia ].
Defined.

(** C8: [kf()] is documented as the last state the system can be set to,
    but [set] at [kf()] does not return.  Over the times 0, 1, 2 [kf()] is
    2; [set] at the indices 0 and 1 repositions the adapter; at index 2 it
    assigns the index, reads [time[3]] outside the time vector and raises
    [IndexError]: not every index from 0 to [kf()] repositions the
    adapter. *)
Theorem set_at_kf_raises :
  kf particle_dsys = ret 2%Z /\
  repositions (H := particle_solve) particle_dsys particle_x0 particle_u0 0 /\
  repositions (H := particle_solve) particle_dsys particle_x0 particle_u0 1 /\
  (exists msg,
     set (H := particle_solve) (Some particle_x0) (Some particle_u0) 2 None particle_dsys
     = (raise (IndexError msg), with_k 2 particle_dsys)) /\
  ~ (forall k : Z, (0 <= k <= 2)%Z ->
       repositions (H := particle_solve) particle_dsys particle_x0 particle_u0 k).
Proof.
  split; [reflexivity|].
  split.
  { exists (snd (set (H := particle_solve) (Some particle_x0) (Some particle_u0) 0 None
                   particle_dsys)).
    split; vm_compute; reflexivity. }
  split.
  { exists (snd (set (H := particle_solve) (Some particle_x0) (Some particle_u0) 1 None
                   particle_dsys)).
    split; vm_compute; reflexivity. }
  split; [eexists; reflexivity|].
  intros Hall. destruct (Hall 2%Z ltac:(lia)) as (self' & Hset & _).
  apply (f_equal fst) in Hset. vm_compute in Hset. discriminate.
Qed.

(** ** The new state *)

Lemma layout_nQ_split (self : DSystem) :
  layout self -> ordered_configs (dsystem self) -> _nQ self = _np self + _nv self.
Proof.
  intros L Ho. rewrite (lay_nQ _ L), (lay_np _ L), (lay_nv _ L), Ho.
  apply length_app.
Qed.

(** [f()] after a step whose vectors have the system's dimensions. *)
Lemma f_stepped (self : DSystem) (s1 : state1) (t2 : float) (sd : StepData) :
  layout self -> ordered_configs (dsystem self) ->
  phase (varint self) = Stepped s1 t2 sd ->
  length (s_q s1) = _nQ self ->
  length (sd_q2 sd) = _nQ self -> length (sd_p2 sd) = _np self ->
  f self = ret (sd_q2 sd ++ sd_p2 sd ++ finite_difference self s1 t2 sd).
Proof.
  intros L Ho Hph Hq1 Hq2 Hp2.
  pose proof (layout_nQ_split self L Ho) as HnQ.
  unfold f, vi_q2, vi_q1, vi_t2, vi_t1, vi_p2, vi_stepped, vi_state1.
  rewrite Hph; simpl.
  rewrite zip_with_drop, <- (lay_np _ L).
  apply build_state_app; try done.
  unfold finite_difference, kinematic.
  rewrite length_zip_with, !length_drop. lia.
Qed.

(** C2: after a step, the [v] slice of the state that [f()] returns is the
    difference of the kinematic configurations at the two times of the step
    divided by the difference of the times, componentwise, and the [Q] and
    [p] slices are the integrator's [q2] and [p2]. *)
Theorem f_slices (self : DSystem) (s1 : state1) (t2 : float) (sd : StepData) :
  layout self -> ordered_configs (dsystem self) ->
  phase (varint self) = Stepped s1 t2 sd ->
  length (s_q s1) = _nQ self ->
  length (sd_q2 sd) = _nQ self -> length (sd_p2 sd) = _np self ->
  exists X,
    f self = ret X /\
    split_state self (Some X) =
      ret (sd_q2 sd, sd_p2 sd,
           zip_with (fun rho2 rho1 =>
                       PrimFloat.div (PrimFloat.sub rho2 rho1) (PrimFloat.sub t2 (s_t s1)))
             (kinematic self (sd_q2 sd)) (kinematic self (s_q s1))).
Proof.
  intros L Ho Hph Hq1 Hq2 Hp2.
  pose proof (layout_nQ_split self L Ho) as HnQ.
  eexists. split; [by apply (f_stepped self s1 t2 sd)|].
  apply split_state_app; try done.
  unfold finite_difference, kinematic.
  rewrite length_zip_with, !length_drop. lia.
Qed.

Lemma layout_particle_set : layout particle_set.
Proof. by split. Qed.

Lemma f_slices_witness :
  exists X,
    f particle_set = ret X /\
    split_state particle_set (Some X) = ret ([4.5; 2.5]%float, [3.5]%float, [0.5]%float).
Proof.
  exact (f_slices particle_set _ _ _ layout_particle_set eq_refl eq_refl
           eq_refl eq_refl eq_refl).
Defined.

(** ** Shapes *)

Lemma has_shape_zeros2 (r c : nat) : has_shape r c (zeros2 r c).
Proof.
  split; [apply length_replicate|]. apply Forall_replicate, length_zeros.
Qed.

Lemma has_shape_diag (v : vector) : has_shape (length v) (length v) (diag v).
Proof.
  unfold diag. split; [apply length_imap|].
  apply Forall_lookup. intros i row Hrow.
  rewrite list_lookup_imap in Hrow.
  destruct (v !! i) as [x|]; simplify_eq/=.
  by rewrite length_insert, length_zeros.
Qed.

Lemma has_shape_rectangular (r c : nat) (v : matrix) :
  has_shape r c v -> rectangular v = true.
Proof.
  intros [_ Hrows]. unfold rectangular.
  apply forallb_forall. intros row Hin.
  apply Nat.eqb_eq.
  destruct v as [|row0 v]; [by destruct Hin|]. simpl.
  rewrite Forall_forall in Hrows.
  rewrite (Hrows row), (Hrows row0); [done|by left|by apply list_elem_of_In].
Qed.

Lemma set_slice_ok (s : slice) (v a : vector) :
  slice_within s (length v) (length a) ->
  exists a', set_slice s v a = ret a' /\ length a' = length a.
Proof.
  intros [Hw Hn]. unfold set_slice.
  destruct s as [lo hi]; simpl in *.
  rewrite length_get_slice, decide_True by lia.
  eexists. split; [done|].
  rewrite !length_app, length_take, length_drop. lia.
Qed.

Lemma zip_result_set_slice_ok (s : slice) (c C : nat) (a v : matrix) :
  slice_within s c C ->
  Forall (fun row => length row = C) a -> Forall (fun row => length row = c) v ->
  length v = length a ->
  exists a', zip_result (fun arow vrow => set_slice s vrow arow) a v = ret a' /\
             length a' = length a /\ Forall (fun row => length row = C) a'.
Proof.
  intros Hs Ha. revert v. induction Ha as [|arow a Harow Ha IH]; intros v Hv Hlen.
  { destruct v; [|done]. by exists []. }
  destruct Hv as [|vrow v Hvrow Hv]; [done|]. simpl in Hlen.
  destruct (IH v Hv) as (a' & Hz & Hl & Hf); [lia|].
  destruct (set_slice_ok s vrow arow) as (r' & Hr & Hlr); [by rewrite Hvrow, Harow|].
  exists (r' :: a'). simpl. rewrite Hr; simpl. rewrite Hz; simpl.
  split; [done|]. split; [by rewrite Hl|].
  constructor; [by rewrite Hlr|done].
Qed.

Lemma set_cols_ok (s : slice) (R C c : nat) (v a : matrix) :
  has_shape R C a -> has_shape R c v -> slice_within s c C ->
  exists a', set_cols s v a = ret a' /\ has_shape R C a'.
Proof.
  intros [HaR HaC] [HvR HvC] Hs. unfold set_cols.
  rewrite (has_shape_rectangular R c v) by done.
  unfold broadcast_rows. rewrite decide_True by lia. simpl.
  destruct (zip_result_set_slice_ok s c C a v) as (a' & Hz & Hl & Hf); try done; [lia|].
  exists a'. split; [done|]. split; [lia|done].
Qed.

Lemma has_shape_get_slice (R C r : nat) (rs : slice) (a : matrix) :
  has_shape R C a -> slice_within rs r R -> has_shape r C (get_slice rs a).
Proof.
  intros [HaR HaC] [Hw Hn]. destruct rs as [lo hi]; simpl in *.
  split; [rewrite length_get_slice; lia|].
  unfold get_slice. by apply Forall_take, Forall_drop.
Qed.

Lemma set_block_ok (rs cs : slice) (R C r c : nat) (v a : matrix) :
  has_shape R C a -> has_shape r c v ->
  slice_within rs r R -> slice_within cs c C ->
  exists a', set_block rs cs v a = ret a' /\ has_shape R C a'.
Proof.
  intros Ha Hv Hrs Hcs. unfold set_block.
  pose proof (has_shape_get_slice R C r rs a Ha Hrs) as Ht.
  destruct (set_cols_ok cs r C c v (get_slice rs a) Ht Hv Hcs) as (b & Hb & [HbR HbC]).
  rewrite Hb; simpl. eexists. split; [done|].
  destruct Ha as [HaR HaC], Ht as [HtR _], Hrs as [Hw Hn].
  split.
  - rewrite !length_app, length_take, length_drop. lia.
  - repeat apply Forall_app_2; [by apply Forall_take|done|by apply Forall_drop].
Qed.

(** ** The first derivatives return *)

Lemma layout_slices (self : DSystem) :
  layout self ->
  slice_within (_slice_Q self) (_nQ self) (_nX self) /\
  slice_within (_slice_p self) (_np self) (_nX self) /\
  slice_within (_slice_v self) (_nv self) (_nX self) /\
  slice_within (_slice_u self) (_nu self) (_nU self) /\
  slice_within (_slice_rho self) (_nrho self) (_nU self).
Proof.
  intros L.
  rewrite (lay_Q _ L), (lay_p _ L), (lay_v _ L), (lay_u _ L), (lay_rho _ L).
  rewrite (lay_nX _ L), (lay_nU _ L).
  unfold slice_within; simpl. lia.
Qed.

Lemma current_dt_ok (self : DSystem) (ts : vector) :
  _time self = Time1 ts ->
  (0 <= _k self)%Z -> (_k self + 1 < Z.of_nat (length ts))%Z ->
  exists dt, current_dt self = ret dt.
Proof.
  intros Ht H0 H1. unfold current_dt. rewrite Ht; simpl.
  destruct (get_item_in_range ts (_k self + 1)) as (t2 & _ & ->); [lia|].
  destruct (get_item_in_range ts (_k self + 0)) as (t1 & _ & ->); [lia|].
  by eexists.
Qed.

Lemma has_shape_diag_scaled (n : nat) (x dt : float) :
  has_shape n n (diag (vdiv_scalar (vmul_scalar (ones n) x) dt)).
Proof.
  assert (length (vdiv_scalar (vmul_scalar (ones n) x) dt) = n) as Hlen.
  { unfold vdiv_scalar, vmul_scalar, ones. by rewrite !length_map, length_replicate. }
  pose proof (has_shape_diag (vdiv_scalar (vmul_scalar (ones n) x) dt)) as Hd.
  by rewrite Hlen in Hd.
Qed.

Ltac assign_block :=
  match goal with
  | Ha : has_shape ?R ?C ?a, Hv : has_shape ?r ?c ?v
    |- context [set_block ?rs ?cs ?v ?a] =>
      let a' := fresh "a" in
      let E := fresh "E" in
      let Hs := fresh "Hs" in
      destruct (set_block_ok rs cs R C r c v a Ha Hv) as (a' & E & Hs);
      [ assumption | assumption | rewrite E; simpl; clear E ]
  end.

Lemma fdx_ok (self : DSystem) (ts : vector) (s1 : state1) (t2 : float) (sd : StepData) :
  layout self -> _time self = Time1 ts ->
  (0 <= _k self)%Z -> (_k self + 1 < Z.of_nat (length ts))%Z ->
  phase (varint self) = Stepped s1 t2 sd -> step_shapes self sd ->
  exists m, fdx self = ret m /\ has_shape (_nX self) (_nX self) m.
Proof.
  intros L Ht H0 H1 Hph (_ & _ & Hqq & Hqp & _ & _ & Hpq & Hpp & _ & _).
  destruct (layout_slices self L) as (HQ & Hp & _ & _ & _).
  destruct (current_dt_ok self ts Ht H0 H1) as [dt Hdt].
  unfold fdx, q2_dq1, q2_dp1, p2_dq1, p2_dp1, vi_d1, vi_stepped.
  rewrite Hdt, Hph; simpl.
  assert (has_shape (_nX self) (_nX self)
            (diag (vdiv_scalar (vmul_scalar (ones (_nX self)) (-1)%float) dt))) as Hd.
  { apply has_shape_diag_scaled. }
  do 4 assign_block. by eexists.
Qed.

Lemma fdu_ok (self : DSystem) (ts : vector) (s1 : state1) (t2 : float) (sd : StepData) :
  layout self -> _time self = Time1 ts ->
  (0 <= _k self)%Z -> (_k self + 1 < Z.of_nat (length ts))%Z ->
  phase (varint self) = Stepped s1 t2 sd -> step_shapes self sd ->
  exists m, fdu self = ret m /\ has_shape (_nX self) (_nU self) m.
Proof.
  intros L Ht H0 H1 Hph (_ & _ & _ & _ & Hqu & Hqk & _ & _ & Hpu & Hpk).
  destruct (layout_slices self L) as (HQ & Hp & Hv & Hu & Hrho).
  destruct (current_dt_ok self ts Ht H0 H1) as [dt Hdt].
  unfold fdu, q2_du1, q2_dk2, p2_du1, p2_dk2, vi_d1, vi_stepped.
  rewrite Hdt, Hph; simpl.
  pose proof (has_shape_zeros2 (_nX self) (_nU self)) as Hz.
  assert (has_shape (_nv self) (_nrho self)
            (diag (vdiv_scalar (vmul_scalar (ones (_nrho self)) 1%float) dt))) as Hd.
  { rewrite (lay_nv _ L), <- (lay_nrho _ L). apply has_shape_diag_scaled. }
  do 5 assign_block. by eexists.
Qed.

(** ** Columns *)

Lemma column_zip_insert (i : nat) (a : matrix) (v : vector) :
  length v = length a -> Forall (fun row => i < length row) a ->
  column i (zip_with (fun r x => <[i := x]> r) a v) = v.
Proof.
  intros Hlen Ha. revert v Hlen.
  induction Ha as [|row a Hrow Ha IH]; intros [|x v] Hlen; try done.
  simpl in *. rewrite list_lookup_insert_eq by done. simpl.
  f_equal. apply IH. lia.
Qed.

Lemma column_zip_insert_ne (i j : nat) (a : matrix) (v : vector) :
  j <> i -> length v = length a ->
  column j (zip_with (fun r x => <[i := x]> r) a v) = column j a.
Proof.
  intros Hne. revert v.
  induction a as [|row a IH]; intros [|x v] Hlen; try done.
  simpl in *. rewrite list_lookup_insert_ne by done.
  f_equal. apply IH. lia.
Qed.

Lemma set_col_ok (N M i : nat) (v : vector) (a : matrix) :
  has_shape N M a -> length v = N -> i < M ->
  exists a', set_col i v a = ret a' /\ has_shape N M a' /\
             column i a' = v /\ (forall j, j <> i -> column j a' = column j a).
Proof.
  intros [HN HM] Hv Hi. unfold set_col.
  assert (Forall (fun row : list float => i < length row) a) as Hrows.
  { eapply Forall_impl; [exact HM|]. simpl. intros row ->. done. }
  assert (forallb (fun r : list float => Nat.ltb i (length r)) a = true) as ->.
  { apply forallb_forall. intros row Hin. apply Nat.ltb_lt.
    rewrite Forall_forall in Hrows. by apply Hrows, list_elem_of_In. }
  rewrite decide_True by lia. simpl.
  eexists. split; [done|]. split; [|split].
  - split; [rewrite length_zip_with; lia|].
    apply Forall_lookup. intros r row Hrow.
    apply lookup_zip_with_Some in Hrow as (row0 & x & -> & Hrow0 & _).
    rewrite length_insert. exact (Forall_lookup_1 _ a r row0 HM Hrow0).
  - apply column_zip_insert; [lia|done].
  - intros j Hj. apply column_zip_insert_ne; [done|lia].
Qed.

Lemma same_shape_ok (N M : nat) (a b : matrix) :
  has_shape N M a -> has_shape N M b -> same_shape a b = true.
Proof.
  intros [HaN HaM] [HbN HbM]. unfold same_shape.
  apply andb_true_iff. split; [apply Nat.eqb_eq; lia|].
  apply forallb_forall. intros [ra rb] Hin. apply Nat.eqb_eq. simpl.
  apply list_elem_of_In, list_elem_of_lookup in Hin as [r Hr].
  apply lookup_zip_with_Some in Hr as (ra' & rb' & [= <- <-] & Hra & Hrb).
  rewrite (Forall_lookup_1 _ a r ra HaM Hra), (Forall_lookup_1 _ b r rb HbM Hrb).
  done.
Qed.

Lemma norm_frobenius (m : matrix) : norm m = frobenius m.
Proof.
  unfold norm, frobenius, fsum. f_equal.
  generalize 0%float. induction (concat m) as [|x l IH]; intros s; [done|].
  simpl. apply IH.
Qed.

Lemma relative_error_ok (N M : nat) (exact approx : matrix) :
  has_shape N M exact -> has_shape N M approx ->
  relative_error exact approx = ret (relative_frobenius exact approx).
Proof.
  intros He Ha. unfold relative_error, msub, relative_frobenius.
  rewrite (same_shape_ok N M exact approx) by done.
  cbn [bind ret]. by rewrite !norm_frobenius.
Qed.

(** A loop of column assignments: when pass [i] assigns the column
    [cols i] and leaves the adapter in the state [st i], the loop over
    [seq a n] assigns the columns [a] to [a + n - 1] and ends in the state
    of its last pass. *)
Lemma for_each_columns (body : nat -> matrix -> method matrix)
    (P : DSystem -> Prop) (cols : nat -> vector) (st : nat -> DSystem) (N M : nat) :
  (forall i acc s, i < M -> P s ->
     body i acc s = (set_col i (cols i) acc, st i) /\ P (st i) /\ length (cols i) = N) ->
  forall n a acc s,
    a + n = M -> P s -> has_shape N M acc ->
    exists A s',
      for_each (seq a n) body acc s = (ret A, s') /\
      P s' /\ (n <> 0 -> s' = st (a + n - 1)) /\ (n = 0 -> s' = s) /\
      has_shape N M A /\
      (forall j, a <= j < a + n -> column j A = cols j) /\
      (forall j, j < a -> column j A = column j acc).
Proof.
  intros Hbody. induction n as [|n IH]; intros a acc s Han Ps Hacc.
  { exists acc, s. simpl. repeat split; try done; try apply Hacc. intros j Hj. lia. }
  destruct (Hbody a acc s) as (Hb & Pst & Hlen); [lia|done|].
  destruct (set_col_ok N M a (cols a) acc) as (acc' & Hset & Hacc' & Hcol & Hother);
    [done|done|lia|].
  destruct (IH (S a) acc' (st a)) as (A & s' & Hfor & Ps' & Hlast & Hnone & HA & Hcols & Hkeep);
    [lia|done|done|].
  exists A, s'. simpl. unfold mbind. rewrite Hb, Hset. simpl.
  split; [done|]. split; [done|]. split; [|split; [done|split; [done|split]]].
  - intros _. destruct n as [|n].
    + rewrite Hnone by done. f_equal. lia.
    + rewrite Hlast by done. f_equal. lia.
  - intros j Hj. destruct (decide (j = a)) as [->|Hne].
    + rewrite Hkeep by lia. done.
    + apply Hcols. lia.
  - intros j Hj. rewrite Hkeep by lia. apply Hother. lia.
Qed.

(** ** Running the methods *)

Lemma mbind_ret {A B} (m : method A) (k : A -> method B) (s s' : DSystem) (a : A) :
  m s = (ret a, s') -> mbind m k s = k a s'.
Proof. intros Hm. unfold mbind. by rewrite Hm. Qed.

Lemma mbind_reading {A B} (r : DSystem -> result A) (k : A -> method B)
    (s : DSystem) (a : A) :
  r s = ret a -> mbind (reading r) k s = k a s.
Proof. intros Hr. apply mbind_ret. unfold reading. by rewrite Hr. Qed.

Lemma update_item_ok (g : float -> float) (i : nat) (a : vector) :
  i < length a ->
  update_item g i a = ret (alter g i a) /\ length (alter g i a) = length a.
Proof.
  intros Hi. unfold update_item.
  destruct (lookup_lt_is_Some_2 a i Hi) as [x ->].
  split; [done|apply length_alter].
Qed.

Lemma central_ok (dfp dfm : vector) (delta : float) :
  length dfp = length dfm ->
  central dfp dfm delta =
    ret (zip_with
           (fun fp fm => PrimFloat.div (PrimFloat.sub fp fm) (PrimFloat.mul 2 delta))
           dfp dfm).
Proof.
  intros Hlen. unfold central, vsub. rewrite decide_True by done. simpl.
  f_equal. unfold vdiv_scalar. clear Hlen. revert dfm.
  induction dfp as [|a dfp IH]; intros [|b dfm]; try done.
  simpl. by rewrite IH.
Qed.

Lemma split_state_lengths (self : DSystem) (x : vector) :
  layout self -> length x = _nX self ->
  length (get_slice (_slice_Q self) x) = _nQ self /\
  length (get_slice (_slice_p self) x) = _np self.
Proof.
  intros L Hx. rewrite (lay_Q _ L), (lay_p _ L).
  rewrite !length_get_slice, Hx, (lay_nX _ L). lia.
Qed.

Lemma split_input_lengths (self : DSystem) (u : vector) :
  layout self -> length u = _nU self ->
  length (get_slice (_slice_u self) u) = _nu self /\
  length (get_slice (_slice_rho self) u) = _nrho self.
Proof.
  intros L Hu. rewrite (lay_u _ L), (lay_rho _ L).
  rewrite !length_get_slice, Hu, (lay_nU _ L). lia.
Qed.

Lemma same_frame_dims (s self : DSystem) :
  same_frame s self -> _nX s = _nX self /\ _nU s = _nU self.
Proof.
  intros [Hs _]. split.
  - exact (f_equal _nX (Hs (varint self) 0%Z)).
  - exact (f_equal _nU (Hs (varint self) 0%Z)).
Qed.

Section Validate.
Context `{Solver} (self : DSystem) (ts : vector) (k : Z).
Hypothesis L : layout self.
Hypothesis O : ordered_configs (dsystem self).
Hypothesis Ht : _time self = Time1 ts.
Hypothesis H0 : (0 <= k)%Z.
Hypothesis H1 : (k + 1 < Z.of_nat (length ts))%Z.
Hypothesis Hok : solver_ok self.

Lemma same_frame_refl : same_frame self self.
Proof. by split. Qed.

Lemma same_frame_stepped (k' : Z) (x : vector) (t1 t2 : float) (sd : StepData) :
  same_frame (stepped_adapter self k' x t1 t2 sd) self.
Proof. by split. Qed.

Lemma layout_stepped (x : vector) (t1 t2 : float) (sd : StepData) :
  layout (stepped_adapter self k x t1 t2 sd).
Proof. by apply layout_with_varint, layout_with_k. Qed.

(** [set] runs the integrator over [time[k], time[k+1]] whatever index
    and integrator state the adapter had. *)
Lemma set_ok (x u : vector) :
  length x = _nX self -> length u = _nU self ->
  exists t1 t2 sd,
    ts !! Z.to_nat k = Some t1 /\ ts !! Z.to_nat (k + 1) = Some t2 /\
    solve (dsystem self) t1 (get_slice (_slice_Q self) x) (get_slice (_slice_p self) x)
      (zeros (length (constraints (dsystem self)))) t2
      (get_slice (_slice_u self) u) (get_slice (_slice_rho self) u) = ret sd /\
    step_shapes self sd /\
    forall s, same_frame s self ->
      set (Some x) (Some u) k None s = (ret tt, stepped_adapter self k x t1 t2 sd).
Proof.
  intros Hx Hu.
  destruct (split_state_lengths self x L Hx) as (HQ & Hp).
  destruct (split_input_lengths self u L Hu) as (Hu' & Hrho).
  destruct (get_item_in_range ts k) as (t1 & Hl1 & _); [lia|].
  destruct (get_item_in_range ts (k + 1)) as (t2 & Hl2 & _); [lia|].
  destruct (Hok t1 (get_slice (_slice_Q self) x) (get_slice (_slice_p self) x)
              (zeros (length (constraints (dsystem self)))) t2
              (get_slice (_slice_u self) u) (get_slice (_slice_rho self) u))
    as (sd & Hsolve & Hsd); try done.
  exists t1, t2, sd. do 4 (split; [done|]). intros s [Hs Hsys].
  assert (_time s = Time1 ts) as Hts.
  { rewrite <- Ht. exact (f_equal _time (Hs (varint self) 0%Z)). }
  destruct (set_in_range s ts x u k None Hts H0 H1) as (t1' & t2' & Hl1' & Hl2' & ->).
  assert (t1' = t1) as -> by congruence.
  assert (t2' = t2) as -> by congruence.
  pose proof (f_equal _slice_Q (Hs (varint self) 0%Z)) as EQ.
  pose proof (f_equal _slice_p (Hs (varint self) 0%Z)) as Ep.
  pose proof (f_equal _slice_u (Hs (varint self) 0%Z)) as Eu.
  pose proof (f_equal _slice_rho (Hs (varint self) 0%Z)) as Erho.
  simpl in EQ, Ep, Eu, Erho. rewrite EQ, Ep, Eu, Erho.
  unfold on_varint, vi_step, initialize_from_state; simpl.
  rewrite Hsys. fold (dsystem self). rewrite Hsolve.
  unfold stepped_adapter. by rewrite <- Hs.
Qed.

Lemma f_stepped_adapter (x : vector) (t1 t2 : float) (sd : StepData) :
  length x = _nX self -> step_shapes self sd ->
  exists y, f (stepped_adapter self k x t1 t2 sd) = ret y /\ length y = _nX self.
Proof.
  intros Hx (Hq2 & Hp2 & _).
  destruct (split_state_lengths self x L Hx) as (HQ & _).
  pose proof (layout_nQ_split self L O) as HnQ.
  pose proof (f_stepped (stepped_adapter self k x t1 t2 sd)
                {| s_t := t1;
                   s_q := get_slice (_slice_Q self) x;
                   s_p := get_slice (_slice_p self) x;
                   s_lambda := zeros (length (constraints (dsystem self))) |}
                t2 sd (layout_stepped x t1 t2 sd) O eq_refl HQ Hq2 Hp2) as Hf.
  eexists. split; [exact Hf|].
  - unfold finite_difference, kinematic. simpl.
    rewrite !length_app, length_zip_with, !length_drop, Hq2, Hp2, HQ, (lay_nX _ L).
    lia.
Qed.

(** Setting the adapter at a point and reading [f()], from any adapter of
    the frame of [self]. *)
Lemma set_then_f (x u : vector) :
  length x = _nX self -> length u = _nU self ->
  exists s' y,
    f s' = ret y /\ length y = _nX self /\ same_frame s' self /\
    f_at self x u k = ret y /\
    forall s, same_frame s self -> set (Some x) (Some u) k None s = (ret tt, s').
Proof.
  intros Hx Hu.
  destruct (set_ok x u Hx Hu) as (t1 & t2 & sd & _ & _ & _ & Hsd & Hset).
  destruct (f_stepped_adapter x t1 t2 sd Hx Hsd) as (y & Hf & Hy).
  exists (stepped_adapter self k x t1 t2 sd), y.
  split; [done|]. split; [done|]. split; [apply same_frame_stepped|].
  split; [|done].
  unfold f_at. by rewrite (Hset self same_frame_refl).
Qed.

(** X16: the velocity slice of the state [f()] returns after
    [set(x, u, k)], for a solver that puts the kinematic configurations at
    the prescribed values: the difference of the kinematic input [rho2] and
    the kinematic configurations of [X[k]], over [time[k+1] - time[k]]. *)
Lemma f_velocity_after_set (x u : vector) :
  length x = _nX self -> length u = _nU self ->
  (forall t1 q1 p1 lambda1 t2 u1 k2 sd,
     solve (dsystem self) t1 q1 p1 lambda1 t2 u1 k2 = ret sd ->
     kinematic self (sd_q2 sd) = k2) ->
  exists t1 t2 X,
    ts !! Z.to_nat k = Some t1 /\ ts !! Z.to_nat (k + 1) = Some t2 /\
    f_at self x u k = ret X /\
    get_slice (_slice_v self) X =
      zip_with (fun rho2 rho1 =>
                  PrimFloat.div (PrimFloat.sub rho2 rho1) (PrimFloat.sub t2 t1))
        (get_slice (_slice_rho self) u)
        (kinematic self (get_slice (_slice_Q self) x)).
Proof.
  intros Hx Hu Hkin.
  destruct (set_ok x u Hx Hu) as (t1 & t2 & sd & Hl1 & Hl2 & Hsolve & Hsd & Hset).
  destruct (split_state_lengths self x L Hx) as (HQ & _).
  destruct Hsd as (Hq2 & Hp2 & _).
  pose proof (layout_nQ_split self L O) as HnQ.
  pose proof (f_stepped (stepped_adapter self k x t1 t2 sd)
                {| s_t := t1;
                   s_q := get_slice (_slice_Q self) x;
                   s_p := get_slice (_slice_p self) x;
                   s_lambda := zeros (length (constraints (dsystem self))) |}
                t2 sd (layout_stepped x t1 t2 sd) O eq_refl HQ Hq2 Hp2) as Hf.
  eexists t1, t2, _. split; [done|]. split; [done|]. split.
  - unfold f_at. rewrite (Hset self same_frame_refl). exact Hf.
  - rewrite (lay_v _ L), (lay_nX _ L), (assoc_L (++)).
    rewrite get_slice_suffix.
    + unfold finite_difference, kinematic. simpl.
      by rewrite <- (Hkin _ _ _ _ _ _ _ _ Hsolve).
    + rewrite length_app. lia.
    + unfold finite_difference, kinematic. simpl.
      rewrite length_zip_with, !length_drop. lia.
Qed.

Context (xk uk : vector) (delta : float).
Hypothesis Hx : length xk = _nX self.
Hypothesis Hu : length uk = _nU self.

(** One pass of the first loop assigns the central difference in
    component [i] of the state and leaves the adapter set at the state
    with [delta] subtracted from component [i]. *)
Lemma perturb_x_spec (i : nat) (acc : matrix) (s : DSystem) :
  same_frame s self -> i < _nX self ->
  exists col,
    central_difference_x self xk uk k delta i = ret col /\
    length col = _nX self /\
    same_frame
      (snd (set (Some (alter (fun x => PrimFloat.sub x delta) i xk)) (Some uk) k None self))
      self /\
    perturb_x xk uk k delta i acc s =
      (set_col i col acc,
       snd (set (Some (alter (fun x => PrimFloat.sub x delta) i xk)) (Some uk) k None self)).
Proof.
  intros Hs Hi.
  destruct (update_item_ok (fun x => PrimFloat.add x delta) i xk) as [Ep Hlp]; [lia|].
  destruct (update_item_ok (fun x => PrimFloat.sub x delta) i xk) as [Em Hlm]; [lia|].
  destruct (set_then_f _ uk (eq_trans Hlp Hx) Hu) as (sp & yp & Hfp & Hyp & Hsfp & Hatp & Hsetp).
  destruct (set_then_f _ uk (eq_trans Hlm Hx) Hu) as (sm & ym & Hfm & Hym & Hsfm & Hatm & Hsetm).
  pose proof (central_ok yp ym delta ltac:(lia)) as Hc.
  eexists. rewrite (Hsetm self same_frame_refl). simpl snd.
  split; [|split; [|split; [done|]]].
  - unfold central_difference_x. rewrite Hatp. cbn [bind ret].
    rewrite Hatm. by cbn [bind ret].
  - rewrite length_zip_with. lia.
  - unfold perturb_x.
    rewrite (mbind_reading _ _ s _ Ep).
    rewrite (mbind_ret _ _ s sp tt (Hsetp s Hs)).
    rewrite (mbind_reading f _ sp yp Hfp).
    rewrite (mbind_reading _ _ sp _ Em).
    rewrite (mbind_ret _ _ sp sm tt (Hsetm sp Hsfp)).
    rewrite (mbind_reading f _ sm ym Hfm).
    unfold reading. rewrite Hc. by cbn [bind ret].
Qed.



End Validate.

(** ** The sample system *)

Lemma particle_solver_ok : solver_ok (H := particle_solve) particle_dsys.
Proof.
  intros t1 q1 p1 lambda1 t2 u1 k2 Hq Hp Hu Hk.
  destruct q1 as [|x1 [|th1 [|? ?]]]; try done.
  destruct p1 as [|px1 [|? ?]]; try done.
  destruct u1 as [|u [|? ?]]; try done.
  destruct k2 as [|th2 [|? ?]]; try done.
  eexists. split; [reflexivity|].
  repeat split; simpl; repeat constructor.
Qed.


(** C1: on the sample system set at index 0 the row of [fdx()] for the
    velocity [v] has -1 in the column of [v] and 0 in the column of the
    kinematic configuration [th], while [f()] changes by -1 per unit of
    [th] and not at all with [v]; [validate_derivatives] at delta = 1e-5
    reports a relative error above one half for [fdx] (and below 2^-20 for
    [fdu], whose [v] rows are right). *)
Theorem fdx_velocity_rows_misplaced :
  fdx particle_set
  = ret [[1; 0; 1; 0]; [0; 0; 0; 0]; [0; 0; 1; 0]; [0; 0; 0; -1]]%float /\
  central_difference_x (H := particle_solve) particle_dsys particle_x0 particle_u0 0
    0.5%float 1 = ret [0; 0; 0; -1]%float /\
  central_difference_x (H := particle_solve) particle_dsys particle_x0 particle_u0 0
    0.5%float 3 = ret [0; 0; 0; 0]%float /\
  fdu particle_set = ret [[1; 0]; [0; 1]; [1; 0]; [0; 1]]%float /\
  central_difference_u (H := particle_solve) particle_dsys particle_x0 particle_u0 0
    0.5%float 1 = ret [0; 1; 0; 1]%float /\
  match fst (validate_derivatives (H := particle_solve) particle_x0 particle_u0 0
               0x1.4f8b588e368f1p-17%float particle_dsys) with
  | inr (fdx_error, fdu_error) =>
      PrimFloat.ltb 0.5%float fdx_error && PrimFloat.ltb fdu_error 0x1p-20%float
  | inl _ => false
  end = true.
Proof. repeat split; vm_compute; reflexivity. Qed.

(** ** What the trajectory helpers return *)

Lemma bind_ret_inv {A B} (m : result A) (k : A -> result B) (b : B) :
  bind m k = ret b -> exists a, m = ret a /\ k a = ret b.
Proof. destruct m as [e|a]; [done|]. intros Hk. by exists a. Qed.

Lemma zip_result_length {A B C} (g : A -> B -> result C) (l : list A) (l' : list B)
    (r : list C) :
  zip_result g l l' = ret r -> length r = Nat.min (length l) (length l').
Proof.
  revert l' r. induction l as [|a l IH]; intros [|b l'] r Hz; simpl in *;
    try by injection Hz as <-.
  apply bind_ret_inv in Hz as (c & _ & Hz).
  apply bind_ret_inv in Hz as (cs & Hcs & Hz).
  injection Hz as <-. simpl. by rewrite (IH l' cs Hcs).
Qed.

Lemma set_cols_length (s : slice) (v a a' : matrix) :
  set_cols s v a = ret a' -> length a' = length a.
Proof.
  unfold set_cols. destruct (rectangular v); [|done]. intros Hs.
  apply bind_ret_inv in Hs as (rows & Hrows & Hz).
  apply zip_result_length in Hz. rewrite Hz.
  unfold broadcast_rows in Hrows. case_decide as Hlen.
  - injection Hrows as <-. lia.
  - destruct v as [|r [|? ?]]; try done. injection Hrows as <-.
    rewrite length_replicate. lia.
Qed.

Lemma set_component_cols_length (s : slice) (c : option matrix) (a a' : matrix) :
  set_component_cols s c a = ret a' -> length a' = length a.
Proof.
  destruct c as [c|]; simpl; [apply set_cols_length|]. by intros [= <-].
Qed.

(** X7: whatever [build_trajectory] returns has the length of the time
    vector for the states and one less for the inputs: no array is
    truncated or padded. *)
Lemma build_trajectory_lengths (self : DSystem) (ts : vector)
    (Q p v u rho : option matrix) (X U : matrix) :
  _time self = Time1 ts ->
  build_trajectory self Q p v u rho = ret (X, U) ->
  length X = length ts /\ length U = length ts - 1.
Proof.
  intros Ht Hb. unfold build_trajectory in Hb.
  do 5 (apply bind_ret_inv in Hb as (? & _ & Hb)).
  rewrite Ht in Hb. simpl in Hb.
  apply bind_ret_inv in Hb as (U0 & HU0 & Hb).
  apply bind_ret_inv in Hb as (X1 & HX1 & Hb).
  apply bind_ret_inv in Hb as (X2 & HX2 & Hb).
  apply bind_ret_inv in Hb as (X3 & HX3 & Hb).
  apply bind_ret_inv in Hb as (U1 & HU1 & Hb).
  apply bind_ret_inv in Hb as (U2 & HU2 & Hb).
  injection Hb as <- <-.
  apply set_component_cols_length in HX1, HX2, HX3, HU1, HU2.
  unfold np_zeros2 in HU0. case_decide; [done|]. injection HU0 as <-.
  unfold zeros2 in *. rewrite length_replicate in HX1, HU1. lia.
Qed.

(** ** The velocity rows of [fdx] *)

Lemma set_block_rows_after (rs cs : slice) (R C r c : nat) (v a a' : matrix) (j : nat) :
  has_shape R C a -> slice_within rs r R ->
  set_block rs cs v a = ret a' -> stop rs <= j -> a' !! j = a !! j.
Proof.
  intros Ha Hrs Hset Hj.
  pose proof (has_shape_get_slice R C r rs a Ha Hrs) as [Hlen _].
  destruct Ha as [HaR _], Hrs as [Hw Hn].
  unfold set_block in Hset.
  apply bind_ret_inv in Hset as (block & Hblock & Hset).
  injection Hset as <-.
  apply set_cols_length in Hblock.
  rewrite lookup_app_r by (rewrite length_take; lia).
  rewrite lookup_app_r by (rewrite length_take; lia).
  rewrite lookup_drop, length_take. f_equal. lia.
Qed.

Lemma diag_lookup (v : vector) (j : nat) (x : float) :
  v !! j = Some x -> diag v !! j = Some (<[j := x]> (zeros (length v))).
Proof. intros Hv. unfold diag. by rewrite list_lookup_imap, Hv. Qed.

Ltac assign_block_keeping j :=
  match goal with
  | Ha : has_shape ?R ?C ?a, Hv : has_shape ?r ?c ?v, Hrow : ?a !! j = _
    |- context [set_block ?rs ?cs ?v ?a] =>
      let a' := fresh "a" in
      let E := fresh "E" in
      let Hs := fresh "Hs" in
      let Hrow' := fresh "Hrow" in
      destruct (set_block_ok rs cs R C r c v a Ha Hv) as (a' & E & Hs);
      [ assumption | assumption | ];
      assert (a' !! j = a !! j) as Hrow'
        by (eapply (set_block_rows_after rs cs R C r c v a a' j); try eassumption; lia);
      rewrite Hrow in Hrow'; clear Hrow;
      rewrite E; simpl; clear E
  end.

(** X14: for every stepped adapter the row of [fdx()] for the velocity of
    the [i]-th kinematic configuration is the row of the diagonal matrix
    the method starts from: [-1/dt] in the column of that velocity, zero in
    every other column, the columns of [Q] included. *)
Lemma fdx_velocity_rows (self : DSystem) (ts : vector) (s1 : state1) (t2 : float)
    (sd : StepData) (i : nat) :
  layout self -> _time self = Time1 ts ->
  (0 <= _k self)%Z -> (_k self + 1 < Z.of_nat (length ts))%Z ->
  phase (varint self) = Stepped s1 t2 sd -> step_shapes self sd ->
  i < _nv self ->
  exists m dt,
    current_dt self = ret dt /\ fdx self = ret m /\
    m !! (_nQ self + _np self + i) =
      Some (<[_nQ self + _np self + i := PrimFloat.div (PrimFloat.mul 1 (-1)) dt]>
              (zeros (_nX self))).
Proof.
  intros L Ht H0 H1 Hph (_ & _ & Hqq & Hqp & _ & _ & Hpq & Hpp & _ & _) Hi.
  destruct (layout_slices self L) as (HQ & Hp & _ & _ & _).
  destruct (current_dt_ok self ts Ht H0 H1) as [dt Hdt].
  unfold fdx, q2_dq1, q2_dp1, p2_dq1, p2_dp1, vi_d1, vi_stepped.
  rewrite Hdt, Hph; simpl.
  pose proof (has_shape_diag_scaled (_nX self) (-1)%float dt) as Hd.
  assert (diag (vdiv_scalar (vmul_scalar (ones (_nX self)) (-1)%float) dt)
            !! (_nQ self + _np self + i)
          = Some (<[_nQ self + _np self + i := PrimFloat.div (PrimFloat.mul 1 (-1)) dt]>
                    (zeros (_nX self)))) as Hrow.
  { erewrite diag_lookup.
    - unfold vdiv_scalar, vmul_scalar, ones.
      by rewrite !length_map, length_replicate.
    - unfold vdiv_scalar, vmul_scalar, ones.
      rewrite !list_lookup_fmap, lookup_replicate_2; [done|].
      rewrite (lay_nX _ L). lia. }
  pose proof HQ as [HQw _]. pose proof Hp as [Hpw _].
  rewrite (lay_Q _ L) in HQw. rewrite (lay_p _ L) in Hpw. simpl in HQw, Hpw.
  assert (stop (_slice_Q self) <= _nQ self + _np self + i) as HQj
    by (rewrite (lay_Q _ L); simpl; lia).
  assert (stop (_slice_p self) <= _nQ self + _np self + i) as Hpj
    by (rewrite (lay_p _ L); simpl; lia).
  do 4 assign_block_keeping (_nQ self + _np self + i).
  by exists a2, dt.
Qed.

(** X15: [set] reads the state through its [Q] and [p] slices only, so the
    state [f()] returns does not depend on the velocity slice of [X[k]]. *)
Lemma f_at_ignores_v `{Solver} (self : DSystem) (x x' u : vector) (k : Z) :
  get_slice (_slice_Q self) x = get_slice (_slice_Q self) x' ->
  get_slice (_slice_p self) x = get_slice (_slice_p self) x' ->
  f_at self x u k = f_at self x' u k.
Proof.
  intros HQ Hp. unfold f_at.
  assert (set (Some x) (Some u) k None self = set (Some x') (Some u) k None self) as ->;
    [|done].
  unfold set, mbind, assign, reading, split_state; simpl. by rewrite HQ, Hp.
Qed.

(** ** Zero fill and the other round trip *)

Lemma length_filled (n : nat) (c : option vector) : fits n c -> length (filled n c) = n.
Proof.
  intros Hc. destruct c as [x|]; simpl; [by apply Hc|apply length_zeros].
Qed.

Lemma set_component_middle (a b : vector) (c : option vector) (w lo hi : nat) :
  length a = lo -> lo + w = hi -> fits w c ->
  set_component (Slice lo hi) c (a ++ zeros w ++ b) = ret (a ++ filled w c ++ b).
Proof.
  intros Ha Hw Hc. destruct c as [x|]; simpl; [|done].
  apply set_slice_middle; rewrite ?length_zeros; try done. by apply Hc.
Qed.

Lemma set_component_suffix (a : vector) (c : option vector) (w lo hi : nat) :
  length a = lo -> lo + w = hi -> fits w c ->
  set_component (Slice lo hi) c (a ++ zeros w) = ret (a ++ filled w c).
Proof.
  intros Ha Hw Hc.
  pose proof (set_component_middle a [] c w lo hi Ha Hw Hc) as Hm.
  by rewrite !app_nil_r in Hm.
Qed.

Lemma build_state_filled (self : DSystem) (Q p v : option vector) :
  layout self -> fits (_nQ self) Q -> fits (_np self) p -> fits (_nv self) v ->
  build_state self Q p v
  = ret (filled (_nQ self) Q ++ filled (_np self) p ++ filled (_nv self) v).
Proof.
  intros L HQ Hp Hv. unfold build_state.
  rewrite (lay_Q _ L), (lay_p _ L), (lay_v _ L), (lay_nX _ L).
  rewrite <- (assoc_L Nat.add), !zeros_add.
  pose proof (set_component_middle [] (zeros (_np self) ++ zeros (_nv self)) Q
                (_nQ self) 0 (_nQ self) eq_refl eq_refl HQ) as Hfirst.
  cbn [app] in Hfirst. rewrite Hfirst. simpl.
  rewrite (set_component_middle (filled (_nQ self) Q) (zeros (_nv self)) p (_np self))
    by (done || by apply length_filled). simpl.
  rewrite (assoc_L (++) (filled (_nQ self) Q)).
  rewrite (set_component_suffix _ v (_nv self) (_nQ self + _np self)).
  - simpl. by rewrite <- (assoc_L (++)).
  - rewrite length_app, !length_filled by done. done.
  - lia.
  - done.
Qed.

(** X1: [build_state] puts each given component of the declared length in
    its slice and zeros in the slice of each omitted one; [split_state]
    reads the three slices back. *)
Theorem build_state_zero_fill (self : DSystem) (Q p v : option vector) :
  layout self -> fits (_nQ self) Q -> fits (_np self) p -> fits (_nv self) v ->
  (X <- build_state self Q p v ;; split_state self (Some X))
  = ret (filled (_nQ self) Q, filled (_np self) p, filled (_nv self) v).
Proof.
  intros L HQ Hp Hv. rewrite build_state_filled by done. simpl.
  apply split_state_app; try done; by apply length_filled.
Qed.

Lemma build_state_zero_fill_witness :
  (X <- build_state particle_dsys None (Some [3]%float) None ;;
   split_state particle_dsys (Some X))
  = ret ([0; 0]%float, [3]%float, [0]%float).
Proof.
  apply (build_state_zero_fill particle_dsys None (Some [3]%float) None);
    [ apply layout_init | | | ]; intros x [= <-]; reflexivity || discriminate.
Defined.

Lemma build_input_filled (self : DSystem) (u rho : option vector) :
  layout self -> fits (_nu self) u -> fits (_nrho self) rho ->
  build_input self u rho = ret (filled (_nu self) u ++ filled (_nrho self) rho).
Proof.
  intros L Hu Hrho. unfold build_input.
  rewrite (lay_u _ L), (lay_rho _ L), (lay_nU _ L), zeros_add.
  pose proof (set_component_middle [] (zeros (_nrho self)) u
                (_nu self) 0 (_nu self) eq_refl eq_refl Hu) as Hfirst.
  cbn [app] in Hfirst. rewrite Hfirst. simpl.
  rewrite (set_component_suffix _ rho (_nrho self) (_nu self)); try done.
  by apply length_filled.
Qed.

Lemma split_input_app (self : DSystem) (u rho : vector) :
  layout self -> length u = _nu self -> length rho = _nrho self ->
  split_input self (Some (u ++ rho)) = ret (u, rho).
Proof.
  intros L Hu Hrho. unfold split_input.
  rewrite (lay_u _ L), (lay_rho _ L), (lay_nU _ L).
  rewrite get_slice_prefix by done.
  rewrite get_slice_suffix by (done || lia). done.
Qed.

Section Pieces.
Context {A : Type}.
Implicit Types x : list A.

Lemma slices_concat2 x (a b : nat) :
  length x = a + b ->
  get_slice (Slice 0 a) x ++ get_slice (Slice a (a + b)) x = x.
Proof.
  intros Hx. unfold get_slice; simpl.
  rewrite drop_0, Nat.sub_0_r.
  replace (a + b - a) with b by lia.
  rewrite (take_ge (drop a x)) by (rewrite length_drop; lia).
  apply take_drop.
Qed.

Lemma slices_concat3 x (a b c : nat) :
  length x = a + b + c ->
  get_slice (Slice 0 a) x ++ get_slice (Slice a (a + b)) x
    ++ get_slice (Slice (a + b) (a + b + c)) x = x.
Proof.
  intros Hx. unfold get_slice; simpl.
  rewrite drop_0, Nat.sub_0_r.
  replace (a + b - a) with b by lia.
  replace (a + b + c - (a + b)) with c by lia.
  rewrite (take_ge (drop (a + b) x)) by (rewrite length_drop; lia).
  rewrite <- (drop_drop x b a), take_drop.
  apply take_drop.
Qed.
End Pieces.

(** X2: [build_input] puts each given component of the declared length in
    its slice and zeros in the slice of each omitted one, [split_input]
    reads the two slices back, and an input vector of [nU] entries split
    and built again is the vector itself. *)
Theorem build_input_zero_fill (self : DSystem) (u rho : option vector) (U : vector) :
  layout self -> fits (_nu self) u -> fits (_nrho self) rho -> length U = _nU self ->
  (U' <- build_input self u rho ;; split_input self (Some U'))
  = ret (filled (_nu self) u, filled (_nrho self) rho) /\
  ('(u', rho') <- split_input self (Some U) ;; build_input self (Some u') (Some rho'))
  = ret U.
Proof.
  intros L Hu Hrho HU. split.
  - rewrite build_input_filled by done. simpl.
    apply split_input_app; try done; by apply length_filled.
  - destruct (split_input_lengths self U L HU) as [Hlu Hlrho].
    unfold split_input. simpl.
    rewrite build_input_filled; try done; try (by intros x [= <-]).
    simpl. f_equal.
    rewrite (lay_u _ L), (lay_rho _ L), (lay_nU _ L).
    apply slices_concat2. by rewrite HU, (lay_nU _ L).
Qed.

Lemma build_input_zero_fill_witness :
  (U' <- build_input particle_dsys None (Some [2.5]%float) ;;
   split_input particle_dsys (Some U'))
  = ret ([0]%float, [2.5]%float) /\
  ('(u', rho') <- split_input particle_dsys (Some particle_u0) ;;
   build_input particle_dsys (Some u') (Some rho'))
  = ret particle_u0.
Proof.
  apply (build_input_zero_fill particle_dsys None (Some [2.5]%float) particle_u0);
    [ apply layout_init | | | reflexivity ]; intros x [= <-]; reflexivity || discriminate.
Defined.

(** X3: a state vector of [nX] entries split into its components and built
    again is the vector itself. *)
Theorem build_state_split_state (self : DSystem) (X : vector) :
  layout self -> length X = _nX self ->
  ('(Q, p, v) <- split_state self (Some X) ;;
   build_state self (Some Q) (Some p) (Some v))
  = ret X.
Proof.
  intros L HX.
  destruct (split_state_lengths self X L HX) as [HQ Hp].
  assert (length (get_slice (_slice_v self) X) = _nv self) as Hv.
  { rewrite (lay_v _ L), length_get_slice, HX, (lay_nX _ L). lia. }
  unfold split_state. simpl.
  rewrite build_state_app by done. f_equal.
  rewrite (lay_Q _ L), (lay_p _ L), (lay_v _ L), (lay_nX _ L).
  apply slices_concat3. by rewrite HX, (lay_nX _ L).
Qed.

Lemma build_state_split_state_witness :
  ('(Q, p, v) <- split_state particle_dsys (Some particle_x0) ;;
   build_state particle_dsys (Some Q) (Some p) (Some v))
  = ret particle_x0.
Proof.
  apply (build_state_split_state particle_dsys particle_x0);
    [ apply layout_init | reflexivity ].
Defined.

(** ** Components of the wrong length *)

Lemma length_slice_Q_zeros (self : DSystem) :
  layout self -> length (get_slice (_slice_Q self) (zeros (_nX self))) = _nQ self.
Proof.
  intros L. rewrite (lay_Q _ L), length_get_slice, length_zeros, (lay_nX _ L). lia.
Qed.

(** X4: [build_state] does not check lengths itself.  A [Q] of one entry
    is broadcast over the whole [Q] slice; a [Q] of any other length than
    [nQ] makes the assignment raise [ValueError], whatever the other
    components are. *)
Theorem build_state_wrong_length (self : DSystem) (Q : vector) (p v : option vector) :
  layout self -> length Q <> _nQ self ->
  (length Q <> 1 ->
   exists msg, build_state self (Some Q) p v = raise (ValueError msg)) /\
  (forall x, Q = [x] -> fits (_np self) p -> fits (_nv self) v ->
   build_state self (Some Q) p v
   = ret (replicate (_nQ self) x ++ filled (_np self) p ++ filled (_nv self) v)).
Proof.
  intros L HQ. pose proof (length_slice_Q_zeros self L) as Hn. split.
  - intros H1. unfold build_state, set_component, set_slice.
    rewrite Hn, decide_False by done.
    destruct Q as [|x [|y Q]]; try done; by eexists.
  - intros x -> Hp Hv. unfold build_state, set_component at 1. unfold set_slice.
    rewrite Hn, decide_False by done. simpl.
    rewrite (lay_Q _ L), (lay_p _ L), (lay_v _ L), (lay_nX _ L). simpl.
    rewrite <- (assoc_L Nat.add), !zeros_add, drop_app_length' by (by rewrite length_zeros).
    rewrite (set_component_middle (replicate (_nQ self) x) (zeros (_nv self)) p (_np self))
      by (done || apply length_replicate). simpl.
    rewrite (assoc_L (++) (replicate (_nQ self) x)).
    rewrite (set_component_suffix _ v (_nv self) (_nQ self + _np self)).
    + simpl. by rewrite <- (assoc_L (++)).
    + rewrite length_app, length_replicate, length_filled by done. done.
    + lia.
    + done.
Qed.

Lemma build_state_wrong_length_witness :
  (exists msg,
     build_state particle_dsys (Some [1; 2; 3]%float) None None
     = raise (ValueError msg)) /\
  build_state particle_dsys (Some [7]%float) None None = ret [7; 7; 0; 0]%float.
Proof.
  split.
  - apply (build_state_wrong_length particle_dsys [1; 2; 3]%float None None);
      [ apply layout_init | simpl; lia | simpl; lia ].
  - apply (build_state_wrong_length particle_dsys [7]%float None None
             (layout_init _ _) ltac:(simpl; lia));
      [ reflexivity | discriminate | discriminate ].
Defined.

(** ** Arrays side by side *)

Lemma length_hcat (a b : matrix) : length (hcat a b) = Nat.min (length a) (length b).
Proof. apply length_zip_with. Qed.

Lemma has_shape_hcat (n ca cb : nat) (a b : matrix) :
  has_shape n ca a -> has_shape n cb b -> has_shape n (ca + cb) (hcat a b).
Proof.
  intros [Ha Hra] [Hb Hrb]. split; [rewrite length_hcat; lia|].
  apply Forall_lookup. intros i row Hrow.
  apply lookup_zip_with_Some in Hrow as (ra & rb & -> & Hia & Hib).
  rewrite length_app.
  by rewrite (Forall_lookup_1 _ a i ra Hra Hia), (Forall_lookup_1 _ b i rb Hrb Hib).
Qed.

Lemma has_shape_filled2 (r c : nat) (m : option matrix) :
  fits2 r c m -> has_shape r c (filled2 r c m).
Proof.
  intros Hm. destruct m as [x|]; simpl; [by apply Hm|apply has_shape_zeros2].
Qed.

Lemma zeros2_add (n a b : nat) : zeros2 n (a + b) = hcat (zeros2 n a) (zeros2 n b).
Proof.
  unfold zeros2, hcat. by rewrite zip_with_replicate, zeros_add.
Qed.

Lemma hcat_nil_l (n : nat) (b : matrix) : length b = n -> hcat (replicate n []) b = b.
Proof.
  intros <-. unfold hcat. induction b as [|row b IH]; simpl; [done|by rewrite IH].
Qed.

Lemma hcat_nil_r (n : nat) (a : matrix) : length a = n -> hcat a (replicate n []) = a.
Proof.
  intros <-. unfold hcat.
  induction a as [|row a IH]; simpl; [done|by rewrite IH, app_nil_r].
Qed.

Lemma get_cols_hcat (n lo w : nat) (a b c : matrix) :
  has_shape n lo a -> has_shape n w b -> length c = n ->
  get_cols (Slice lo (lo + w)) (hcat a (hcat b c)) = b.
Proof.
  intros [Ha Hra] [Hb Hrb] Hc. revert n b c Ha Hb Hrb Hc.
  induction Hra as [|ra a Hla Hra IH]; intros n b c Ha Hb Hrb Hc.
  { simpl in Ha. subst n. by destruct b. }
  destruct Hrb as [|rb b Hlb Hrb]; [by subst n|].
  destruct c as [|rc c]; [by subst n|].
  simpl in *. f_equal.
  - apply get_slice_middle; [done|lia].
  - apply (IH (length a)); try done; lia.
Qed.

Lemma zip_result_set_slice_hcat (lo w : nat) (a b c v : matrix) :
  Forall (fun row => length row = lo) a ->
  Forall (fun row => length row = w) b ->
  Forall (fun row => length row = w) v ->
  length b = length a -> length c = length a -> length v = length a ->
  zip_result (fun arow vrow => set_slice (Slice lo (lo + w)) vrow arow)
    (hcat a (hcat b c)) v
  = ret (hcat a (hcat v c)).
Proof.
  intros Hra. revert b c v.
  induction Hra as [|ra a Hla Hra IH]; intros b c v Hrb Hrv Hb Hc Hv.
  { by destruct v. }
  destruct Hrb as [|rb b Hlb Hrb]; [done|].
  destruct Hrv as [|rv v Hlv Hrv]; [done|].
  destruct c as [|rc c]; [done|].
  simpl in *.
  rewrite set_slice_middle by (done || lia). simpl.
  fold (hcat b c). fold (hcat a (hcat b c)).
  rewrite IH by (done || lia). done.
Qed.

Lemma set_cols_hcat (n lo w : nat) (a b c v : matrix) :
  has_shape n lo a -> has_shape n w b -> length c = n -> has_shape n w v ->
  set_cols (Slice lo (lo + w)) v (hcat a (hcat b c)) = ret (hcat a (hcat v c)).
Proof.
  intros [Ha Hra] [Hb Hrb] Hc [Hv Hrv]. unfold set_cols.
  rewrite (has_shape_rectangular n w v) by done.
  unfold broadcast_rows. rewrite !length_hcat, decide_True by lia. simpl.
  apply zip_result_set_slice_hcat; try done; lia.
Qed.

Lemma set_component_cols_hcat (n lo w : nat) (a c : matrix) (m : option matrix) :
  has_shape n lo a -> length c = n -> fits2 n w m ->
  set_component_cols (Slice lo (lo + w)) m (hcat a (hcat (zeros2 n w) c))
  = ret (hcat a (hcat (filled2 n w m) c)).
Proof.
  intros Ha Hc Hm. destruct m as [x|]; simpl; [|done].
  apply (set_cols_hcat n); try done; [apply has_shape_zeros2|by apply Hm].
Qed.

Lemma hcat_slices3 (n a b c : nat) (x : matrix) :
  has_shape n (a + b + c) x ->
  hcat (get_cols (Slice 0 a) x)
    (hcat (get_cols (Slice a (a + b)) x) (get_cols (Slice (a + b) (a + b + c)) x))
  = x.
Proof.
  intros [_ Hrows]. unfold hcat, get_cols.
  induction Hrows as [|row x Hrow Hrows IH]; simpl; [done|].
  by rewrite IH, slices_concat3.
Qed.

Lemma hcat_slices2 (n a b : nat) (x : matrix) :
  has_shape n (a + b) x ->
  hcat (get_cols (Slice 0 a) x) (get_cols (Slice a (a + b)) x) = x.
Proof.
  intros [_ Hrows]. unfold hcat, get_cols.
  induction Hrows as [|row x Hrow Hrows IH]; simpl; [done|].
  by rewrite IH, slices_concat2.
Qed.

Lemma hcat_assoc (a b c : matrix) : hcat (hcat a b) c = hcat a (hcat b c).
Proof.
  unfold hcat. revert b c.
  induction a as [|ra a IH]; intros [|rb b] [|rc c]; simpl; try done.
  by rewrite IH, (assoc_L (++)).
Qed.

Lemma get_cols_prefix (n w : nat) (b c : matrix) :
  has_shape n w b -> length c = n -> get_cols (Slice 0 w) (hcat b c) = b.
Proof.
  intros Hb Hc.
  rewrite <- (hcat_nil_l n (hcat b c)) by (rewrite length_hcat; destruct Hb; lia).
  apply (get_cols_hcat n 0 w); try done.
  split; [apply length_replicate|by apply Forall_replicate].
Qed.

Lemma get_cols_suffix (n lo w : nat) (a b : matrix) :
  has_shape n lo a -> has_shape n w b -> get_cols (Slice lo (lo + w)) (hcat a b) = b.
Proof.
  intros Ha Hb.
  rewrite <- (hcat_nil_r n b) at 1 by apply Hb.
  apply (get_cols_hcat n lo w); try done. apply length_replicate.
Qed.

Lemma set_component_cols_prefix (n w : nat) (c : matrix) (m : option matrix) :
  length c = n -> fits2 n w m ->
  set_component_cols (Slice 0 w) m (hcat (zeros2 n w) c) = ret (hcat (filled2 n w m) c).
Proof.
  intros Hc Hm.
  pose proof (set_component_cols_hcat n 0 w (replicate n []) c m) as Hs.
  rewrite !hcat_nil_l in Hs.
  - apply Hs; try done. split; [apply length_replicate|by apply Forall_replicate].
  - rewrite length_hcat. destruct (has_shape_filled2 n w m Hm). lia.
  - rewrite length_hcat. destruct (has_shape_zeros2 n w). lia.
Qed.

Lemma set_component_cols_suffix (n lo w : nat) (a : matrix) (m : option matrix) :
  has_shape n lo a -> fits2 n w m ->
  set_component_cols (Slice lo (lo + w)) m (hcat a (zeros2 n w))
  = ret (hcat a (filled2 n w m)).
Proof.
  intros Ha Hm.
  pose proof (set_component_cols_hcat n lo w a (replicate n []) m Ha
                (length_replicate _ _) Hm) as Hs.
  rewrite !hcat_nil_r in Hs; [done| |].
  - by destruct (has_shape_filled2 n w m Hm).
  - by destruct (has_shape_zeros2 n w).
Qed.

Lemma has_shape_get_cols (n C w : nat) (s : slice) (x : matrix) :
  has_shape n C x -> slice_within s w C -> has_shape n w (get_cols s x).
Proof.
  intros [Hx Hrows] [Hw HC]. destruct s as [lo hi]. simpl in *.
  split; [unfold get_cols; by rewrite length_map|].
  unfold get_cols. apply Forall_map.
  eapply Forall_impl; [exact Hrows|]. simpl. intros row Hrow.
  rewrite length_get_slice. lia.
Qed.

Lemma check_length_fits (self : DSystem) (ts : vector) Q p v u rho name
    (c : option matrix) (w : nat) (less : Z) :
  _time self = Time1 ts -> (0 <= less <= Z.of_nat (length ts))%Z ->
  fits2 (length ts - Z.to_nat less) w c ->
  check_length self Q p v u rho name c less = ret tt.
Proof.
  intros Ht Hless Hc. rewrite (check_length_cases self ts) by done.
  destruct c as [m|]; [|done].
  destruct (Hc m eq_refl) as [Hm _]. rewrite decide_False; [done|lia].
Qed.

(** What [build_trajectory] returns for components that are omitted or of
    the lengths of the time vector and of the widths of their slices. *)
Lemma build_trajectory_filled (self : DSystem) (ts : vector) (Q p v u rho : option matrix) :
  layout self -> _time self = Time1 ts -> 1 <= length ts ->
  fits2 (length ts) (_nQ self) Q -> fits2 (length ts) (_np self) p ->
  fits2 (length ts) (_nv self) v ->
  fits2 (length ts - 1) (_nu self) u -> fits2 (length ts - 1) (_nrho self) rho ->
  build_trajectory self Q p v u rho
  = ret (hcat (filled2 (length ts) (_nQ self) Q)
           (hcat (filled2 (length ts) (_np self) p) (filled2 (length ts) (_nv self) v)),
         hcat (filled2 (length ts - 1) (_nu self) u)
           (filled2 (length ts - 1) (_nrho self) rho)).
Proof.
  intros L Ht Hn HQ Hp Hv Hu Hrho. unfold build_trajectory.
  rewrite (check_length_fits self ts _ _ _ _ _ "Q" Q (_nQ self) 0)
    by (done || lia || by rewrite Nat.sub_0_r).
  rewrite (check_length_fits self ts _ _ _ _ _ "p" p (_np self) 0)
    by (done || lia || by rewrite Nat.sub_0_r).
  rewrite (check_length_fits self ts _ _ _ _ _ "v" v (_nv self) 0)
    by (done || lia || by rewrite Nat.sub_0_r).
  rewrite (check_length_fits self ts _ _ _ _ _ "u" u (_nu self) 1) by (done || lia).
  rewrite (check_length_fits self ts _ _ _ _ _ "rho" rho (_nrho self) 1) by (done || lia).
  simpl. rewrite Ht. simpl. unfold np_zeros2.
  rewrite decide_False by lia. simpl.
  replace (Z.to_nat (Z.of_nat (length ts) - 1)) with (length ts - 1) by lia.
  rewrite (lay_Q _ L), (lay_p _ L), (lay_v _ L), (lay_u _ L), (lay_rho _ L).
  rewrite (lay_nX _ L), (lay_nU _ L).
  pose proof (has_shape_filled2 _ _ Q HQ) as SQ.
  pose proof (has_shape_filled2 _ _ p Hp) as Sp.
  pose proof (has_shape_filled2 _ _ v Hv) as Sv.
  pose proof (has_shape_filled2 _ _ u Hu) as Su.
  pose proof (has_shape_zeros2 (length ts) (_np self)) as [Zp _].
  pose proof (has_shape_zeros2 (length ts) (_nv self)) as [Zv _].
  pose proof (has_shape_zeros2 (length ts - 1) (_nrho self)) as [Zrho _].
  rewrite <- (assoc_L Nat.add), !zeros2_add.
  rewrite (set_component_cols_prefix (length ts)); [|rewrite length_hcat; lia|done].
  simpl.
  rewrite (set_component_cols_hcat (length ts)) by done. simpl.
  rewrite (assoc_L Nat.add), <- hcat_assoc.
  rewrite (set_component_cols_suffix (length ts)); [|by apply has_shape_hcat|done].
  simpl.
  rewrite (set_component_cols_prefix (length ts - 1)) by done. simpl.
  rewrite (set_component_cols_suffix (length ts - 1)) by done. simpl.
  by rewrite hcat_assoc.
Qed.

(** [split_trajectory] of arrays side by side gives them back. *)
Lemma split_trajectory_hcat (self : DSystem) (n m : nat) (Q p v u rho : matrix) :
  layout self ->
  has_shape n (_nQ self) Q -> has_shape n (_np self) p -> has_shape n (_nv self) v ->
  has_shape m (_nu self) u -> has_shape m (_nrho self) rho ->
  split_trajectory self (Some (hcat Q (hcat p v))) (Some (hcat u rho))
  = ret (Q, p, v, u, rho).
Proof.
  intros L SQ Sp Sv Su Srho. unfold split_trajectory. simpl.
  rewrite (lay_Q _ L), (lay_p _ L), (lay_v _ L), (lay_u _ L), (lay_rho _ L).
  rewrite (lay_nX _ L), (lay_nU _ L).
  rewrite (get_cols_prefix n) by (done || (rewrite length_hcat; destruct Sp, Sv; lia)).
  rewrite (get_cols_hcat n) by (done || apply Sv).
  rewrite <- hcat_assoc.
  rewrite (get_cols_suffix n) by (done || by apply has_shape_hcat).
  rewrite (get_cols_prefix m) by (done || apply Srho).
  rewrite (get_cols_suffix m) by done.
  done.
Qed.

(** X5: for components that are omitted or have the length of the time
    vector (one less for [u] and [rho]) and the width of their slice,
    [build_trajectory] returns, and [split_trajectory] of what it returns
    gives the components back, zero arrays for the omitted ones. *)
Theorem split_trajectory_build_trajectory (self : DSystem) (ts : vector)
    (Q p v u rho : option matrix) :
  layout self -> _time self = Time1 ts -> 1 <= length ts ->
  fits2 (length ts) (_nQ self) Q -> fits2 (length ts) (_np self) p ->
  fits2 (length ts) (_nv self) v ->
  fits2 (length ts - 1) (_nu self) u -> fits2 (length ts - 1) (_nrho self) rho ->
  ('(X, U) <- build_trajectory self Q p v u rho ;;
   split_trajectory self (Some X) (Some U))
  = ret (filled2 (length ts) (_nQ self) Q, filled2 (length ts) (_np self) p,
         filled2 (length ts) (_nv self) v,
         filled2 (length ts - 1) (_nu self) u, filled2 (length ts - 1) (_nrho self) rho).
Proof.
  intros L Ht Hn HQ Hp Hv Hu Hrho.
  rewrite (build_trajectory_filled self ts) by done. cbn [bind ret].
  apply (split_trajectory_hcat self (length ts) (length ts - 1));
    try done; by apply has_shape_filled2.
Qed.

Lemma split_trajectory_build_trajectory_witness :
  ('(X, U) <- build_trajectory particle_dsys
                (Some [[1; 2]; [3; 4]; [5; 6]]%float) None None
                (Some [[7]; [8]]%float) None ;;
   split_trajectory particle_dsys (Some X) (Some U))
  = ret ([[1; 2]; [3; 4]; [5; 6]]%float, [[0]; [0]; [0]]%float, [[0]; [0]; [0]]%float,
         [[7]; [8]]%float, [[0]; [0]]%float).
Proof.
  apply (split_trajectory_build_trajectory particle_dsys [0; 1; 2]%float
           (Some [[1; 2]; [3; 4]; [5; 6]]%float) None None (Some [[7]; [8]]%float) None
           (layout_init _ _) eq_refl);
    [ simpl; lia | | | | | ];
    intros x Hx; try discriminate Hx; injection Hx as <-;
    (split; [reflexivity | repeat constructor]).
Defined.

(** X6: a state trajectory of [len(time)] rows and [nX] columns and an
    input trajectory of [len(time) - 1] rows and [nU] columns, split into
    components and built again, are the trajectories themselves. *)
Theorem build_trajectory_split_trajectory (self : DSystem) (ts : vector) (X U : matrix) :
  layout self -> _time self = Time1 ts -> 1 <= length ts ->
  has_shape (length ts) (_nX self) X -> has_shape (length ts - 1) (_nU self) U ->
  ('(Q, p, v, u, rho) <- split_trajectory self (Some X) (Some U) ;;
   build_trajectory self (Some Q) (Some p) (Some v) (Some u) (Some rho))
  = ret (X, U).
Proof.
  intros L Ht Hn HX HU.
  destruct (layout_slices self L) as (SQ & Sp & Sv & Su & Srho).
  unfold split_trajectory. cbn [bind ret].
  rewrite (build_trajectory_filled self ts); try done;
    try (intros x [= <-]; by eapply has_shape_get_cols).
  simpl. f_equal.
  rewrite (lay_Q _ L), (lay_p _ L), (lay_v _ L), (lay_u _ L), (lay_rho _ L).
  rewrite (lay_nX _ L), (lay_nU _ L) in *.
  by rewrite (hcat_slices3 (length ts)), (hcat_slices2 (length ts - 1)).
Qed.

Lemma build_trajectory_split_trajectory_witness :
  ('(Q, p, v, u, rho) <-
     split_trajectory particle_dsys
       (Some [[1; 2; 3; 4]; [5; 6; 7; 8]; [9; 10; 11; 12]]%float)
       (Some [[1; 2]; [3; 4]]%float) ;;
   build_trajectory particle_dsys (Some Q) (Some p) (Some v) (Some u) (Some rho))
  = ret ([[1; 2; 3; 4]; [5; 6; 7; 8]; [9; 10; 11; 12]]%float, [[1; 2]; [3; 4]]%float).
Proof.
  apply (build_trajectory_split_trajectory particle_dsys [0; 1; 2]%float
           _ _ (layout_init _ _) eq_refl);
    [ simpl; lia | | ]; split; [reflexivity | repeat constructor | reflexivity
                                | repeat constructor ].
Defined.

Lemma build_trajectory_lengths_witness :
  build_trajectory particle_dsys (Some [[1; 2]; [3; 4]; [5; 6]]%float) None
    (Some [[9]; [10]; [11]]%float) (Some [[7]; [8]]%float) None
  = ret ([[1; 2; 0; 9]; [3; 4; 0; 10]; [5; 6; 0; 11]]%float, [[7; 0]; [8; 0]]%float) /\
  length [[1; 2; 0; 9]; [3; 4; 0; 10]; [5; 6; 0; 11]]%float = length [0; 1; 2]%float /\
  length [[7; 0]; [8; 0]]%float = length [0; 1; 2]%float - 1.
Proof.
  split; [reflexivity|].
  apply (build_trajectory_lengths particle_dsys [0; 1; 2]%float
           (Some [[1; 2]; [3; 4]; [5; 6]]%float) None (Some [[9]; [10]; [11]]%float)
           (Some [[7]; [8]]%float) None);
    reflexivity.
Defined.

(** X8: when a given component has a length other than the time vector's
    (one less for [u] and [rho]), [build_trajectory] never returns: the
    call of [bad_arguments] raises [TypeError]. *)
Theorem build_trajectory_mismatch_raises (self : DSystem) (ts : vector)
    (Q p v u rho : option matrix) :
  _time self = Time1 ts ->
  bad_length Q (Z.of_nat (length ts)) \/ bad_length p (Z.of_nat (length ts)) \/
  bad_length v (Z.of_nat (length ts)) \/ bad_length u (Z.of_nat (length ts) - 1) \/
  bad_length rho (Z.of_nat (length ts) - 1) ->
  (exists msg, build_trajectory self Q p v u rho = raise (TypeError msg)) /\
  (forall XU, build_trajectory self Q p v u rho <> ret XU).
Proof.
  intros Ht Hbad. rewrite (build_trajectory_mismatch self ts) by done.
  split; [by eexists|done].
Qed.

Lemma build_trajectory_mismatch_raises_witness :
  (exists msg,
     build_trajectory particle_dsys None None None (Some [[1]; [2]; [3]]%float) None
     = raise (TypeError msg)) /\
  (forall XU,
     build_trajectory particle_dsys None None None (Some [[1]; [2]; [3]]%float) None
     <> ret XU).
Proof.
  apply (build_trajectory_mismatch_raises particle_dsys [0; 1; 2]%float);
    [ reflexivity | ].
  right. right. right. left. eexists. split; [reflexivity | simpl; lia].
Defined.

(** ** Omitted trajectories *)

Lemma get_cols_zeros2 (n C w : nat) (s : slice) :
  slice_within s w C -> get_cols s (zeros2 n C) = zeros2 n w.
Proof.
  intros [Hw HC]. destruct s as [lo hi]. simpl in *.
  unfold get_cols, zeros2. rewrite fmap_replicate. f_equal.
  unfold get_slice, zeros. simpl.
  rewrite drop_replicate, take_replicate. f_equal. lia.
Qed.

(** X9: with the state trajectory omitted, [split_trajectory] returns zero
    [Q], [p] and [v] of one row more than the input trajectory, and the
    [u] and [rho] columns of the input trajectory; with both omitted, zero
    components of the lengths of the time vector. *)
Theorem split_trajectory_X_omitted (self : DSystem) (ts : vector) (U : matrix) :
  layout self -> _time self = Time1 ts -> 1 <= length ts ->
  split_trajectory self None (Some U)
  = ret (zeros2 (length U + 1) (_nQ self), zeros2 (length U + 1) (_np self),
         zeros2 (length U + 1) (_nv self),
         get_cols (_slice_u self) U, get_cols (_slice_rho self) U) /\
  split_trajectory self None None
  = ret (zeros2 (length ts) (_nQ self), zeros2 (length ts) (_np self),
         zeros2 (length ts) (_nv self),
         zeros2 (length ts - 1) (_nu self), zeros2 (length ts - 1) (_nrho self)).
Proof.
  intros L Ht Hn.
  destruct (layout_slices self L) as (SQ & Sp & Sv & Su & Srho).
  unfold split_trajectory, nX, nU. rewrite Ht. simpl. unfold np_zeros2.
  rewrite decide_False by lia. simpl.
  replace (Z.to_nat (Z.of_nat (length ts) - 1)) with (length ts - 1) by lia.
  rewrite !(get_cols_zeros2 _ _ _ _ SQ), !(get_cols_zeros2 _ _ _ _ Sp),
    !(get_cols_zeros2 _ _ _ _ Sv), (get_cols_zeros2 _ _ _ _ Su),
    (get_cols_zeros2 _ _ _ _ Srho).
  done.
Qed.

Lemma split_trajectory_X_omitted_witness :
  split_trajectory particle_dsys None (Some [[1; 2]; [3; 4]]%float)
  = ret (zeros2 3 2, zeros2 3 1, zeros2 3 1, [[1]; [3]]%float, [[2]; [4]]%float) /\
  split_trajectory particle_dsys None None
  = ret (zeros2 3 2, zeros2 3 1, zeros2 3 1, zeros2 2 1, zeros2 2 1).
Proof.
  apply (split_trajectory_X_omitted particle_dsys [0; 1; 2]%float
           [[1; 2]; [3; 4]]%float (layout_init _ _) eq_refl).
  simpl; lia.
Defined.

(** ** Indices of the time vector *)









(** ** The blocks of the first derivatives *)

Lemma set_cols_prefix (n w : nat) (b c v : matrix) :
  has_shape n w b -> length c = n -> has_shape n w v ->
  set_cols (Slice 0 w) v (hcat b c) = ret (hcat v c).
Proof.
  intros Hb Hc Hv.
  pose proof (set_cols_hcat n 0 w (replicate n []) b c v) as Hs.
  rewrite !hcat_nil_l in Hs.
  - apply Hs; try done. split; [apply length_replicate|by apply Forall_replicate].
  - rewrite length_hcat. destruct Hv. lia.
  - rewrite length_hcat. destruct Hb. lia.
Qed.

Lemma set_cols_suffix (n lo w : nat) (a b v : matrix) :
  has_shape n lo a -> has_shape n w b -> has_shape n w v ->
  set_cols (Slice lo (lo + w)) v (hcat a b) = ret (hcat a v).
Proof.
  intros Ha Hb Hv.
  pose proof (set_cols_hcat n lo w a b (replicate n []) v Ha Hb
                (length_replicate _ _) Hv) as Hs.
  rewrite !hcat_nil_r in Hs; [done|apply Hv|apply Hb].
Qed.

Lemma set_block_rows (top mid bot v : matrix) (cs : slice) (lo : nat) :
  length top = lo ->
  set_block (Slice lo (lo + length mid)) cs v (top ++ mid ++ bot)
  = (block <- set_cols cs v mid ;; ret (top ++ block ++ bot)).
Proof.
  intros Htop. unfold set_block.
  rewrite (get_slice_middle top mid bot lo (lo + length mid)) by done. simpl.
  rewrite <- Htop, take_app_length.
  by rewrite (assoc_L (++) top mid bot), <- length_app, drop_app_length.
Qed.

Lemma set_block_rows_of (top mid bot v : matrix) (cs : slice) (lo r : nat) :
  length top = lo -> length mid = r ->
  set_block (Slice lo (lo + r)) cs v (top ++ mid ++ bot)
  = (block <- set_cols cs v mid ;; ret (top ++ block ++ bot)).
Proof. intros Htop <-. by apply set_block_rows. Qed.

Lemma rows_split3 (n C a b c : nat) (x : matrix) :
  has_shape n C x -> n = a + b + c ->
  exists xa xb xc,
    x = xa ++ xb ++ xc /\ has_shape a C xa /\ has_shape b C xb /\ has_shape c C xc /\
    xa = take a x /\ xc = drop (a + b) x.
Proof.
  intros [Hn Hrows] ->.
  exists (take a x), (take b (drop a x)), (drop (a + b) x).
  split; [|split; [|split; [|split; [|done]]]].
  - rewrite <- (drop_drop x b a), take_drop. by rewrite take_drop.
  - split; [rewrite length_take; lia|by apply Forall_take].
  - split; [rewrite length_take, length_drop; lia|by apply Forall_take, Forall_drop].
  - split; [rewrite length_drop; lia|by apply Forall_drop].
Qed.

Lemma cols_split3 (n a b c : nat) (x : matrix) :
  has_shape n (a + b + c) x ->
  exists xa xb xc,
    x = hcat xa (hcat xb xc) /\ has_shape n a xa /\ has_shape n b xb /\
    has_shape n c xc /\ xc = get_cols (Slice (a + b) (a + b + c)) x.
Proof.
  intros Hx. do 3 eexists. split; [symmetry; by apply (hcat_slices3 n a b c)|].
  repeat split; try done; try (unfold get_cols; rewrite length_map; apply Hx);
    unfold get_cols; apply Forall_map;
    (eapply Forall_impl; [apply Hx|]); simpl; intros row Hrow;
    rewrite length_get_slice; lia.
Qed.

(** The rows of a diagonal matrix below the diagonal's columns: the block
    of rows [r0 .. r1) and columns [c0 .. c1) with [r1 <= c0] is zero. *)
Lemma diag_upper_block (v : vector) (r0 r1 c0 c1 : nat) :
  r0 <= r1 -> r1 <= c0 -> c0 <= c1 -> c1 <= length v ->
  get_block (Slice r0 r1) (Slice c0 c1) (diag v) = zeros2 (r1 - r0) (c1 - c0).
Proof.
  intros Hr Hrc Hc Hlen. apply list_eq. intros i.
  unfold get_block, get_cols, get_slice, zeros2. simpl.
  rewrite list_lookup_fmap.
  destruct (decide (i < r1 - r0)) as [Hi|Hi].
  - rewrite lookup_take_lt, lookup_drop by done.
    destruct (lookup_lt_is_Some_2 v (r0 + i)) as [x Hx]; [lia|].
    rewrite (diag_lookup v (r0 + i) x Hx). simpl.
    rewrite lookup_replicate_2 by done. f_equal.
    rewrite drop_insert_lt by lia.
    unfold zeros. rewrite drop_replicate, take_replicate. f_equal. lia.
  - rewrite lookup_take_ge by lia. simpl.
    symmetry. apply lookup_replicate_None. lia.
Qed.

Lemma length_zeros2 (r c : nat) : length (zeros2 r c) = r.
Proof. apply length_replicate. Qed.

(** X12: for every stepped adapter [fdx()] returns the integrator's
    sensitivities in the blocks of [Q] and [p], zeros in the [Q] and [p]
    rows of the [v] columns, and below them the rows of the diagonal matrix
    of [-1/dt] it started from. *)
Theorem fdx_blocks (self : DSystem) (ts : vector) (s1 : state1) (t2 : float)
    (sd : StepData) :
  layout self -> _time self = Time1 ts ->
  (0 <= _k self)%Z -> (_k self + 1 < Z.of_nat (length ts))%Z ->
  phase (varint self) = Stepped s1 t2 sd -> step_shapes self sd ->
  exists dt,
    current_dt self = ret dt /\
    fdx self =
      ret (hcat (sd_d1 sd Oq2 Dq1) (hcat (sd_d1 sd Oq2 Dp1) (zeros2 (_nQ self) (_nv self)))
           ++ hcat (sd_d1 sd Op2 Dq1)
                (hcat (sd_d1 sd Op2 Dp1) (zeros2 (_np self) (_nv self)))
           ++ drop (_nQ self + _np self)
                (diag (vdiv_scalar (vmul_scalar (ones (_nX self)) (-1)%float) dt))).
Proof.
  intros L Ht H0 H1 Hph (_ & _ & Hqq & Hqp & _ & _ & Hpq & Hpp & _ & _).
  destruct (current_dt_ok self ts Ht H0 H1) as [dt Hdt].
  exists dt. split; [done|].
  unfold fdx, q2_dq1, q2_dp1, p2_dq1, p2_dp1, vi_d1, vi_stepped.
  rewrite Hdt, Hph. cbn [bind ret fst snd].
  pose proof (has_shape_diag_scaled (_nX self) (-1)%float dt) as HD.
  assert (length (vdiv_scalar (vmul_scalar (ones (_nX self)) (-1)%float) dt) = _nX self)
    as Hlen.
  { unfold vdiv_scalar, vmul_scalar, ones. by rewrite !length_map, length_replicate. }
  pose proof (diag_upper_block (vdiv_scalar (vmul_scalar (ones (_nX self)) (-1)%float) dt)
                0 (_nQ self) (_nQ self + _np self) (_nX self)) as ZQ.
  pose proof (diag_upper_block (vdiv_scalar (vmul_scalar (ones (_nX self)) (-1)%float) dt)
                (_nQ self) (_nQ self + _np self) (_nQ self + _np self) (_nX self)) as Zp.
  rewrite Hlen in ZQ, Zp.
  rewrite (lay_Q _ L), (lay_p _ L).
  rewrite (lay_nX _ L) in *.
  remember (diag (vdiv_scalar (vmul_scalar (ones (_nQ self + _np self + _nv self))
                                 (-1)%float) dt)) as D eqn:ED.
  destruct (rows_split3 _ _ (_nQ self) (_np self) (_nv self) D HD eq_refl)
    as (DQ & Dp & Dv & EDrows & SDQ & SDp & SDv & EDQ & EDv).
  rewrite <- EDv. clear EDv.
  unfold get_block in ZQ, Zp.
  specialize (ZQ ltac:(lia) ltac:(lia) ltac:(lia) ltac:(lia)).
  specialize (Zp ltac:(lia) ltac:(lia) ltac:(lia) ltac:(lia)).
  replace (_nQ self - 0) with (_nQ self) in ZQ by lia.
  replace (_nQ self + _np self - _nQ self) with (_np self) in Zp by lia.
  replace (_nQ self + _np self + _nv self - (_nQ self + _np self)) with (_nv self)
    in ZQ, Zp by lia.
  assert (get_slice (Slice 0 (_nQ self)) D = DQ) as GQ.
  { rewrite EDrows. apply get_slice_prefix, SDQ. }
  assert (get_slice (Slice (_nQ self) (_nQ self + _np self)) D = Dp) as Gp.
  { rewrite EDrows. apply get_slice_middle; [apply SDQ|]. destruct SDp as [-> _]. done. }
  rewrite GQ in ZQ. rewrite Gp in Zp. clear GQ Gp EDQ.
  destruct (cols_split3 _ _ _ _ DQ SDQ) as (A1 & A2 & A3 & EA & SA1 & SA2 & SA3 & EA3).
  destruct (cols_split3 _ _ _ _ Dp SDp) as (B1 & B2 & B3 & EB & SB1 & SB2 & SB3 & EB3).
  rewrite <- EA3 in ZQ. rewrite <- EB3 in Zp. subst A3 B3.
  clear ED Hlen HD. subst D DQ Dp.
  pose proof Hqq as [Lqq Rqq]. pose proof SA1 as [LA1 RA1].
  pose proof SB1 as [LB1 RB1]. pose proof Hpp as [Lpp Rpp].
  pose proof Hqp as [Lqp Rqp]. pose proof Hpq as [Lpq Rpq].
  pose proof SA2 as [LA2 RA2]. pose proof SB2 as [LB2 RB2].
  (* rows of Q, columns of Q *)
  pose proof (set_block_rows_of [] (hcat A1 (hcat A2 (zeros2 (_nQ self) (_nv self))))
                (hcat B1 (hcat B2 (zeros2 (_np self) (_nv self))) ++ Dv)
                (sd_d1 sd Oq2 Dq1) (Slice 0 (_nQ self)) 0 (_nQ self) eq_refl) as E1.
  cbn [app Nat.add] in E1. rewrite E1 by (rewrite !length_hcat, length_zeros2; lia). clear E1.
  rewrite (set_cols_prefix (_nQ self)); try done;
    [|rewrite length_hcat, length_zeros2; lia].
  cbn [bind ret].
  (* rows of Q, columns of p *)
  pose proof (set_block_rows_of []
                (hcat (sd_d1 sd Oq2 Dq1) (hcat A2 (zeros2 (_nQ self) (_nv self))))
                (hcat B1 (hcat B2 (zeros2 (_np self) (_nv self))) ++ Dv)
                (sd_d1 sd Oq2 Dp1) (Slice (_nQ self) (_nQ self + _np self)) 0 (_nQ self)
                eq_refl) as E2.
  cbn [app Nat.add] in E2. rewrite E2 by (rewrite !length_hcat, length_zeros2; lia). clear E2.
  rewrite (set_cols_hcat (_nQ self)); try done; [|apply length_zeros2].
  cbn [bind ret].
  (* rows of p, columns of Q *)
  rewrite (set_block_rows_of
             (hcat (sd_d1 sd Oq2 Dq1)
                (hcat (sd_d1 sd Oq2 Dp1) (zeros2 (_nQ self) (_nv self))))
             (hcat B1 (hcat B2 (zeros2 (_np self) (_nv self)))) Dv
             (sd_d1 sd Op2 Dq1) (Slice 0 (_nQ self)) (_nQ self) (_np self))
    by (rewrite !length_hcat, length_zeros2; lia).
  rewrite (set_cols_prefix (_np self)); try done;
    [|rewrite length_hcat, length_zeros2; lia].
  cbn [bind ret].
  (* rows of p, columns of p *)
  rewrite (set_block_rows_of
             (hcat (sd_d1 sd Oq2 Dq1)
                (hcat (sd_d1 sd Oq2 Dp1) (zeros2 (_nQ self) (_nv self))))
             (hcat (sd_d1 sd Op2 Dq1) (hcat B2 (zeros2 (_np self) (_nv self)))) Dv
             (sd_d1 sd Op2 Dp1) (Slice (_nQ self) (_nQ self + _np self))
             (_nQ self) (_np self))
    by (rewrite !length_hcat, length_zeros2; lia).
  rewrite (set_cols_hcat (_np self)) by (done || apply length_zeros2).
  done.
Qed.

Lemma fdx_blocks_witness :
  exists dt,
    current_dt particle_set = ret dt /\
    fdx particle_set =
      ret (hcat [[1; 0]; [0; 0]]%float (hcat [[1]; [0]]%float (zeros2 2 1))
           ++ hcat [[0; 0]]%float (hcat [[1]]%float (zeros2 1 1))
           ++ drop 3 (diag (vdiv_scalar (vmul_scalar (ones 4) (-1)%float) dt))).
Proof.
  refine (fdx_blocks particle_set [0; 1; 2]%float _ _ _ layout_particle_set eq_refl
            _ _ eq_refl _).
  - by vm_compute.
  - by vm_compute.
  - repeat split; simpl; repeat constructor.
Defined.

Lemma zeros2_rows_add (a b c : nat) : zeros2 (a + b) c = zeros2 a c ++ zeros2 b c.
Proof. apply replicate_add. Qed.

(** X13: for every stepped adapter [fdu()] returns the integrator's
    sensitivities in the rows of [Q] and [p], and in the rows of [v] zeros
    in the columns of [u] and the diagonal matrix of [1/dt] in the columns
    of [rho]. *)
Theorem fdu_blocks (self : DSystem) (ts : vector) (s1 : state1) (t2 : float)
    (sd : StepData) :
  layout self -> _time self = Time1 ts ->
  (0 <= _k self)%Z -> (_k self + 1 < Z.of_nat (length ts))%Z ->
  phase (varint self) = Stepped s1 t2 sd -> step_shapes self sd ->
  exists dt,
    current_dt self = ret dt /\
    fdu self =
      ret (hcat (sd_d1 sd Oq2 Du1) (sd_d1 sd Oq2 Dk2)
           ++ hcat (sd_d1 sd Op2 Du1) (sd_d1 sd Op2 Dk2)
           ++ hcat (zeros2 (_nv self) (_nu self))
                (diag (vdiv_scalar (vmul_scalar (ones (_nrho self)) 1%float) dt))).
Proof.
  intros L Ht H0 H1 Hph (_ & _ & _ & _ & Hqu & Hqk & _ & _ & Hpu & Hpk).
  destruct (current_dt_ok self ts Ht H0 H1) as [dt Hdt].
  exists dt. split; [done|].
  unfold fdu, q2_du1, q2_dk2, p2_du1, p2_dk2, vi_d1, vi_stepped.
  rewrite Hdt, Hph. cbn [bind ret fst snd].
  assert (has_shape (_nv self) (_nrho self)
            (diag (vdiv_scalar (vmul_scalar (ones (_nrho self)) 1%float) dt))) as HD.
  { rewrite (lay_nv _ L), <- (lay_nrho _ L). apply has_shape_diag_scaled. }
  remember (diag (vdiv_scalar (vmul_scalar (ones (_nrho self)) 1%float) dt)) as D eqn:ED.
  clear ED.
  rewrite (lay_Q _ L), (lay_p _ L), (lay_v _ L), (lay_u _ L), (lay_rho _ L).
  rewrite (lay_nX _ L), (lay_nU _ L).
  rewrite !zeros2_rows_add, !zeros2_add, <- (assoc_L (++)).
  pose proof (has_shape_zeros2 (_nQ self) (_nu self)) as ZQu.
  pose proof (has_shape_zeros2 (_nQ self) (_nrho self)) as ZQk.
  pose proof (has_shape_zeros2 (_np self) (_nu self)) as Zpu.
  pose proof (has_shape_zeros2 (_np self) (_nrho self)) as Zpk.
  pose proof (has_shape_zeros2 (_nv self) (_nu self)) as Zvu.
  pose proof (has_shape_zeros2 (_nv self) (_nrho self)) as Zvk.
  pose proof Hqu as [Lqu _]. pose proof Hqk as [Lqk _].
  pose proof Hpu as [Lpu _]. pose proof Hpk as [Lpk _].
  (* rows of Q *)
  pose proof (set_block_rows_of []
                (hcat (zeros2 (_nQ self) (_nu self)) (zeros2 (_nQ self) (_nrho self)))
                (hcat (zeros2 (_np self) (_nu self)) (zeros2 (_np self) (_nrho self))
                 ++ hcat (zeros2 (_nv self) (_nu self)) (zeros2 (_nv self) (_nrho self)))
                (sd_d1 sd Oq2 Du1) (Slice 0 (_nu self)) 0 (_nQ self) eq_refl) as E1.
  cbn [app Nat.add] in E1. rewrite E1 by (rewrite !length_hcat, !length_zeros2; lia).
  clear E1.
  rewrite (set_cols_prefix (_nQ self)) by (done || apply length_zeros2).
  cbn [bind ret].
  pose proof (set_block_rows_of []
                (hcat (sd_d1 sd Oq2 Du1) (zeros2 (_nQ self) (_nrho self)))
                (hcat (zeros2 (_np self) (_nu self)) (zeros2 (_np self) (_nrho self))
                 ++ hcat (zeros2 (_nv self) (_nu self)) (zeros2 (_nv self) (_nrho self)))
                (sd_d1 sd Oq2 Dk2) (Slice (_nu self) (_nu self + _nrho self)) 0 (_nQ self)
                eq_refl) as E2.
  cbn [app Nat.add] in E2. rewrite E2 by (rewrite !length_hcat, !length_zeros2; lia).
  clear E2.
  rewrite (set_cols_suffix (_nQ self)) by done.
  cbn [bind ret].
  (* rows of p *)
  rewrite (set_block_rows_of (hcat (sd_d1 sd Oq2 Du1) (sd_d1 sd Oq2 Dk2))
             (hcat (zeros2 (_np self) (_nu self)) (zeros2 (_np self) (_nrho self)))
             (hcat (zeros2 (_nv self) (_nu self)) (zeros2 (_nv self) (_nrho self)))
             (sd_d1 sd Op2 Du1) (Slice 0 (_nu self)) (_nQ self) (_np self))
    by (rewrite !length_hcat, ?length_zeros2; lia).
  rewrite (set_cols_prefix (_np self)) by (done || apply length_zeros2).
  cbn [bind ret].
  rewrite (set_block_rows_of (hcat (sd_d1 sd Oq2 Du1) (sd_d1 sd Oq2 Dk2))
             (hcat (sd_d1 sd Op2 Du1) (zeros2 (_np self) (_nrho self)))
             (hcat (zeros2 (_nv self) (_nu self)) (zeros2 (_nv self) (_nrho self)))
             (sd_d1 sd Op2 Dk2) (Slice (_nu self) (_nu self + _nrho self))
             (_nQ self) (_np self))
    by (rewrite !length_hcat, ?length_zeros2; lia).
  rewrite (set_cols_suffix (_np self)) by done.
  cbn [bind ret].
  (* rows of v *)
  pose proof (set_block_rows_of
                (hcat (sd_d1 sd Oq2 Du1) (sd_d1 sd Oq2 Dk2)
                 ++ hcat (sd_d1 sd Op2 Du1) (sd_d1 sd Op2 Dk2))
                (hcat (zeros2 (_nv self) (_nu self)) (zeros2 (_nv self) (_nrho self)))
                [] D (Slice (_nu self) (_nu self + _nrho self))
                (_nQ self + _np self) (_nv self)) as E5.
  rewrite !app_nil_r, <- !(assoc_L (++)) in E5.
  rewrite E5 by (rewrite ?length_app, !length_hcat, ?length_zeros2; lia).
  clear E5.
  rewrite (set_cols_suffix (_nv self)) by done.
  cbn [bind ret]. by rewrite app_nil_r, <- (assoc_L (++)).
Qed.

Lemma fdu_blocks_witness :
  exists dt,
    current_dt particle_set = ret dt /\
    fdu particle_set =
      ret (hcat [[1]; [0]]%float [[0]; [1]]%float
           ++ hcat [[1]]%float [[0]]%float
           ++ hcat (zeros2 1 1) (diag (vdiv_scalar (vmul_scalar (ones 1) 1%float) dt))).
Proof.
  refine (fdu_blocks particle_set [0; 1; 2]%float _ _ _ layout_particle_set eq_refl
            _ _ eq_refl _).
  - by vm_compute.
  - by vm_compute.
  - repeat split; simpl; repeat constructor.
Defined.

(** ** The sample system, continued *)

Lemma particle_kinematic t1 q1 p1 lambda1 t2 u1 k2 sd :
  solve (Solver := particle_solve) (dsystem particle_dsys) t1 q1 p1 lambda1 t2 u1 k2
  = ret sd ->
  kinematic particle_dsys (sd_q2 sd) = k2.
Proof.
  unfold solve, particle_solve.
  destruct q1 as [|x1 [|th1 [|? ?]]]; try done.
  destruct p1 as [|px1 [|? ?]]; try done.
  destruct u1 as [|u [|? ?]]; try done.
  destruct k2 as [|th2 [|? ?]]; try done.
  by intros [= <-].
Qed.

Lemma fdx_velocity_rows_witness :
  exists m dt,
    current_dt particle_set = ret dt /\ fdx particle_set = ret m /\
    m !! 3 = Some (<[3 := PrimFloat.div (PrimFloat.mul 1 (-1)) dt]> (zeros 4)).
Proof.
  refine (fdx_velocity_rows particle_set [0; 1; 2]%float _ _ _ 0 layout_particle_set
            eq_refl _ _ eq_refl _ _).
  - by vm_compute.
  - by vm_compute.
  - repeat split; simpl; repeat constructor.
  - simpl. lia.
Defined.

Lemma f_at_ignores_v_witness :
  f_at (H := particle_solve) particle_dsys [1; 2; 3; 4]%float particle_u0 0
  = f_at (H := particle_solve) particle_dsys [1; 2; 3; 9]%float particle_u0 0.
Proof.
  apply (f_at_ignores_v (H := particle_solve) particle_dsys); reflexivity.
Defined.

Lemma f_velocity_after_set_witness :
  exists t1 t2 X,
    [0; 1; 2]%float !! Z.to_nat 0 = Some t1 /\
    [0; 1; 2]%float !! Z.to_nat (0 + 1) = Some t2 /\
    f_at (H := particle_solve) particle_dsys particle_x0 particle_u0 0 = ret X /\
    get_slice (Slice 3 4) X =
      zip_with (fun rho2 rho1 =>
                  PrimFloat.div (PrimFloat.sub rho2 rho1) (PrimFloat.sub t2 t1))
        [2.5]%float [2]%float.
Proof.
  apply (f_velocity_after_set (H := particle_solve) particle_dsys [0; 1; 2]%float 0
           (layout_init _ _) eq_refl eq_refl);
    [ lia | simpl; lia | exact particle_solver_ok | reflexivity | reflexivity
    | exact particle_kinematic ].
Defined.

(** ** The blocks of the second derivatives *)

Lemma inner_ok `{Blas} (a b : nat) (z : vector) (t : tensor3) :
  has_shape3 a b (length z) t ->
  inner z t = ret (map (map (dot z)) t) /\ has_shape a b (map (map (dot z)) t).
Proof.
  intros [Ha Ht]. unfold inner.
  assert (forallb (forallb (fun c : list float => Nat.eqb (length c) (length z))) t = true)
    as ->.
  { apply forallb_forall. intros m Hm. apply forallb_forall. intros c Hc.
    apply Nat.eqb_eq.
    rewrite Forall_forall in Ht. apply list_elem_of_In in Hm, Hc.
    destruct (Ht m Hm) as [_ Hrows]. rewrite Forall_forall in Hrows. by apply Hrows. }
  split; [done|]. split; [by rewrite length_map|].
  apply Forall_map. eapply Forall_impl; [exact Ht|]. simpl.
  intros m [Hm _]. by rewrite length_map.
Qed.

Lemma has_shape_zip_with (g : float -> float -> float) (a b : nat) (m m' : matrix) :
  has_shape a b m -> has_shape a b m' -> has_shape a b (zip_with (zip_with g) m m').
Proof.
  intros [Hm Hr] [Hm' Hr']. split; [rewrite length_zip_with; lia|].
  apply Forall_lookup. intros i row Hrow.
  apply lookup_zip_with_Some in Hrow as (r & r' & -> & Hi & Hi').
  rewrite length_zip_with.
  rewrite (Forall_lookup_1 _ m i r Hr Hi), (Forall_lookup_1 _ m' i r' Hr' Hi'). lia.
Qed.

Lemma contracted_ok `{Blas} (self : DSystem) (s1 : state1) (t2 : float) (sd : StepData)
    (z : vector) (x y : wrt) :
  layout self -> phase (varint self) = Stepped s1 t2 sd -> step_shapes2 self sd ->
  length z = _nX self ->
  contracted self (get_slice (_slice_Q self) z) (get_slice (_slice_p self) z)
    (vi_d2 Oq2 x y) (vi_d2 Op2 x y)
  = ret (hvp self sd z x y) /\
  has_shape (wrt_size self x) (wrt_size self y) (hvp self sd z x y).
Proof.
  intros L Hph Hsd Hz.
  destruct (split_state_lengths self z L Hz) as [HQ Hp].
  pose proof (Hsd Oq2 x y) as Hq. pose proof (Hsd Op2 x y) as Hp2.
  simpl in Hq, Hp2. rewrite <- HQ in Hq. rewrite <- Hp in Hp2.
  destruct (inner_ok _ _ _ _ Hq) as [Eq Sq].
  destruct (inner_ok _ _ _ _ Hp2) as [Ep Sp].
  unfold contracted, vi_d2, vi_stepped. rewrite Hph. cbn [bind ret fst snd].
  rewrite Eq. cbn [bind ret]. rewrite Ep. cbn [bind ret].
  unfold madd. rewrite (same_shape_ok _ _ _ _ Sq Sp).
  split; [done|]. by apply has_shape_zip_with.
Qed.

Lemma has_shape_transpose_rows (w : nat) (m : matrix) :
  has_shape w (length m) (transpose_rows w m).
Proof.
  revert m. induction w as [|w IH]; intros m; [by split|].
  simpl. destruct (IH (map (fun r => tl r) m)) as [Hl Hr].
  rewrite length_map in Hr.
  split; [simpl; by rewrite Hl|].
  constructor; [by rewrite length_map|done].
Qed.

Lemma block_T_hcat (n a b N : nat) (A B C rest : matrix) :
  has_shape n a A -> has_shape n b B -> length C = n -> a + b <= N ->
  block_T (Slice 0 n) (Slice a (a + b)) N (hcat A (hcat B C) ++ rest)
  = transpose_rows b B.
Proof.
  intros SA SB SC HN. unfold block_T, get_block.
  rewrite get_slice_prefix by (rewrite !length_hcat; destruct SA, SB; lia).
  rewrite (get_cols_hcat n) by done.
  rewrite length_get_slice, length_zeros. f_equal. lia.
Qed.

Lemma block_T_hcat2 (n a b N : nat) (A B rest : matrix) :
  has_shape n a A -> has_shape n b B -> a + b <= N ->
  block_T (Slice 0 n) (Slice a (a + b)) N (hcat A B ++ rest)
  = transpose_rows b B.
Proof.
  intros SA SB HN. unfold block_T, get_block.
  rewrite get_slice_prefix by (rewrite !length_hcat; destruct SA, SB; lia).
  rewrite (get_cols_suffix n) by done.
  rewrite length_get_slice, length_zeros. f_equal. lia.
Qed.

Lemma zeros2_blocks (r1 r2 r3 c1 c2 c3 : nat) :
  zeros2 (r1 + r2 + r3) (c1 + c2 + c3)
  = hcat (zeros2 r1 c1) (hcat (zeros2 r1 c2) (zeros2 r1 c3))
    ++ hcat (zeros2 r2 c1) (hcat (zeros2 r2 c2) (zeros2 r2 c3))
    ++ zeros2 r3 (c1 + c2 + c3).
Proof.
  rewrite !zeros2_rows_add, <- (assoc_L (++)).
  by rewrite <- !hcat_assoc, <- !zeros2_add.
Qed.

(** X17: for every stepped adapter whose second derivatives have the
    system's dimensions, [fdxdx(z)] has the contractions in the blocks of
    [Q] and [p], the block of rows [p] and columns [Q] being the transpose
    of the block of rows [Q] and columns [p], and zeros in every row and
    every column of [v]. *)
Theorem fdxdx_blocks `{Blas} (self : DSystem) (s1 : state1) (t2 : float) (sd : StepData)
    (z : vector) :
  layout self -> phase (varint self) = Stepped s1 t2 sd -> step_shapes2 self sd ->
  length z = _nX self ->
  fdxdx self z =
    ret (hcat (hvp self sd z Dq1 Dq1)
           (hcat (hvp self sd z Dq1 Dp1) (zeros2 (_nQ self) (_nv self)))
         ++ hcat (transpose_rows (_np self) (hvp self sd z Dq1 Dp1))
              (hcat (hvp self sd z Dp1 Dp1) (zeros2 (_np self) (_nv self)))
         ++ zeros2 (_nv self) (_nX self)).
Proof.
  intros L Hph Hsd Hz.
  destruct (contracted_ok self s1 t2 sd z Dq1 Dq1 L Hph Hsd Hz) as [E11 S11].
  destruct (contracted_ok self s1 t2 sd z Dq1 Dp1 L Hph Hsd Hz) as [E12 S12].
  destruct (contracted_ok self s1 t2 sd z Dp1 Dp1 L Hph Hsd Hz) as [E22 S22].
  simpl in S11, S12, S22.
  pose proof (has_shape_transpose_rows (_np self) (hvp self sd z Dq1 Dp1)) as ST.
  pose proof S11 as [L11 _]. pose proof S12 as [L12 _]. pose proof S22 as [L22 _].
  rewrite L12 in ST. pose proof ST as [LT _].
  pose proof (has_shape_zeros2 (_nQ self) (_nQ self)) as ZQQ.
  pose proof (has_shape_zeros2 (_nQ self) (_np self)) as ZQp.
  pose proof (has_shape_zeros2 (_np self) (_nQ self)) as ZpQ.
  pose proof (has_shape_zeros2 (_np self) (_np self)) as Zpp.
  unfold fdxdx, q2_dq1dq1, p2_dq1dq1, q2_dq1dp1, p2_dq1dp1, q2_dp1dp1, p2_dp1dp1.
  rewrite E11. cbn [bind ret].
  rewrite (lay_Q _ L), (lay_p _ L), (lay_nX _ L), zeros2_blocks.
  pose proof (set_block_rows_of []
                (hcat (zeros2 (_nQ self) (_nQ self))
                   (hcat (zeros2 (_nQ self) (_np self)) (zeros2 (_nQ self) (_nv self))))
                (hcat (zeros2 (_np self) (_nQ self))
                   (hcat (zeros2 (_np self) (_np self)) (zeros2 (_np self) (_nv self)))
                 ++ zeros2 (_nv self) (_nQ self + _np self + _nv self))
                (hvp self sd z Dq1 Dq1) (Slice 0 (_nQ self)) 0 (_nQ self) eq_refl) as B1.
  cbn [app Nat.add] in B1. rewrite B1 by (rewrite !length_hcat, !length_zeros2; lia).
  clear B1.
  rewrite (set_cols_prefix (_nQ self))
    by (done || (rewrite length_hcat, !length_zeros2; lia)).
  cbn [bind ret].
  rewrite (lay_Q _ L), (lay_p _ L) in E12. rewrite E12. cbn [bind ret].
  pose proof (set_block_rows_of []
                (hcat (hvp self sd z Dq1 Dq1)
                   (hcat (zeros2 (_nQ self) (_np self)) (zeros2 (_nQ self) (_nv self))))
                (hcat (zeros2 (_np self) (_nQ self))
                   (hcat (zeros2 (_np self) (_np self)) (zeros2 (_np self) (_nv self)))
                 ++ zeros2 (_nv self) (_nQ self + _np self + _nv self))
                (hvp self sd z Dq1 Dp1) (Slice (_nQ self) (_nQ self + _np self))
                0 (_nQ self) eq_refl) as B2.
  cbn [app Nat.add] in B2. rewrite B2 by (rewrite !length_hcat, !length_zeros2; lia).
  clear B2.
  rewrite (set_cols_hcat (_nQ self)) by (done || apply length_zeros2).
  cbn [bind ret].
  rewrite (block_T_hcat (_nQ self) (_nQ self) (_np self))
    by (done || apply length_zeros2 || lia).
  rewrite (set_block_rows_of
             (hcat (hvp self sd z Dq1 Dq1)
                (hcat (hvp self sd z Dq1 Dp1) (zeros2 (_nQ self) (_nv self))))
             (hcat (zeros2 (_np self) (_nQ self))
                (hcat (zeros2 (_np self) (_np self)) (zeros2 (_np self) (_nv self))))
             (zeros2 (_nv self) (_nQ self + _np self + _nv self))
             (transpose_rows (_np self) (hvp self sd z Dq1 Dp1))
             (Slice 0 (_nQ self)) (_nQ self) (_np self))
    by (rewrite !length_hcat, ?length_zeros2; lia).
  rewrite (set_cols_prefix (_np self))
    by (done || (rewrite length_hcat, !length_zeros2; lia)).
  cbn [bind ret].
  rewrite (lay_Q _ L), (lay_p _ L) in E22. rewrite E22. cbn [bind ret].
  rewrite (set_block_rows_of
             (hcat (hvp self sd z Dq1 Dq1)
                (hcat (hvp self sd z Dq1 Dp1) (zeros2 (_nQ self) (_nv self))))
             (hcat (transpose_rows (_np self) (hvp self sd z Dq1 Dp1))
                (hcat (zeros2 (_np self) (_np self)) (zeros2 (_np self) (_nv self))))
             (zeros2 (_nv self) (_nQ self + _np self + _nv self))
             (hvp self sd z Dp1 Dp1)
             (Slice (_nQ self) (_nQ self + _np self)) (_nQ self) (_np self))
    by (rewrite !length_hcat, ?length_zeros2; lia).
  rewrite (set_cols_hcat (_np self)) by (done || apply length_zeros2).
  done.
Qed.

Lemma zeros2_blocks2 (r1 r2 r3 c1 c2 : nat) :
  zeros2 (r1 + r2 + r3) (c1 + c2)
  = hcat (zeros2 r1 c1) (zeros2 r1 c2) ++ hcat (zeros2 r2 c1) (zeros2 r2 c2)
    ++ zeros2 r3 (c1 + c2).
Proof.
  rewrite !zeros2_rows_add, <- (assoc_L (++)). by rewrite <- !zeros2_add.
Qed.

(** X18: for every stepped adapter whose second derivatives have the
    system's dimensions, [fdxdu(z)] has the contractions in the rows of [Q]
    and [p] and zeros in the rows of [v]. *)
Theorem fdxdu_blocks `{Blas} (self : DSystem) (s1 : state1) (t2 : float) (sd : StepData)
    (z : vector) :
  layout self -> phase (varint self) = Stepped s1 t2 sd -> step_shapes2 self sd ->
  length z = _nX self ->
  fdxdu self z =
    ret (hcat (hvp self sd z Dq1 Du1) (hvp self sd z Dq1 Dk2)
         ++ hcat (hvp self sd z Dp1 Du1) (hvp self sd z Dp1 Dk2)
         ++ zeros2 (_nv self) (_nU self)).
Proof.
  intros L Hph Hsd Hz.
  destruct (contracted_ok self s1 t2 sd z Dq1 Du1 L Hph Hsd Hz) as [E11 S11].
  destruct (contracted_ok self s1 t2 sd z Dq1 Dk2 L Hph Hsd Hz) as [E12 S12].
  destruct (contracted_ok self s1 t2 sd z Dp1 Du1 L Hph Hsd Hz) as [E21 S21].
  destruct (contracted_ok self s1 t2 sd z Dp1 Dk2 L Hph Hsd Hz) as [E22 S22].
  simpl in S11, S12, S21, S22.
  pose proof S11 as [L11 _]. pose proof S12 as [L12 _].
  pose proof S21 as [L21 _]. pose proof S22 as [L22 _].
  pose proof (has_shape_zeros2 (_nQ self) (_nu self)) as ZQu.
  pose proof (has_shape_zeros2 (_nQ self) (_nrho self)) as ZQk.
  pose proof (has_shape_zeros2 (_np self) (_nu self)) as Zpu.
  pose proof (has_shape_zeros2 (_np self) (_nrho self)) as Zpk.
  unfold fdxdu, q2_dq1du1, p2_dq1du1, q2_dq1dk2, p2_dq1dk2, q2_dp1du1, p2_dp1du1,
    q2_dp1dk2, p2_dp1dk2.
  rewrite E11. cbn [bind ret]. rewrite E12. cbn [bind ret].
  rewrite E21. cbn [bind ret]. rewrite E22. cbn [bind ret].
  rewrite (lay_Q _ L), (lay_p _ L), (lay_u _ L), (lay_rho _ L).
  rewrite (lay_nX _ L), (lay_nU _ L), zeros2_blocks2.
  pose proof (set_block_rows_of []
                (hcat (zeros2 (_nQ self) (_nu self)) (zeros2 (_nQ self) (_nrho self)))
                (hcat (zeros2 (_np self) (_nu self)) (zeros2 (_np self) (_nrho self))
                 ++ zeros2 (_nv self) (_nu self + _nrho self))
                (hvp self sd z Dq1 Du1) (Slice 0 (_nu self)) 0 (_nQ self) eq_refl) as B1.
  cbn [app Nat.add] in B1. rewrite B1 by (rewrite !length_hcat, !length_zeros2; lia).
  clear B1.
  rewrite (set_cols_prefix (_nQ self)) by (done || apply length_zeros2).
  cbn [bind ret].
  pose proof (set_block_rows_of []
                (hcat (hvp self sd z Dq1 Du1) (zeros2 (_nQ self) (_nrho self)))
                (hcat (zeros2 (_np self) (_nu self)) (zeros2 (_np self) (_nrho self))
                 ++ zeros2 (_nv self) (_nu self + _nrho self))
                (hvp self sd z Dq1 Dk2) (Slice (_nu self) (_nu self + _nrho self))
                0 (_nQ self) eq_refl) as B2.
  cbn [app Nat.add] in B2. rewrite B2 by (rewrite !length_hcat, ?length_zeros2; lia).
  clear B2.
  rewrite (set_cols_suffix (_nQ self)) by done.
  cbn [bind ret].
  rewrite (set_block_rows_of (hcat (hvp self sd z Dq1 Du1) (hvp self sd z Dq1 Dk2))
             (hcat (zeros2 (_np self) (_nu self)) (zeros2 (_np self) (_nrho self)))
             (zeros2 (_nv self) (_nu self + _nrho self))
             (hvp self sd z Dp1 Du1) (Slice 0 (_nu self)) (_nQ self) (_np self))
    by (rewrite !length_hcat, ?length_zeros2; lia).
  rewrite (set_cols_prefix (_np self)) by (done || apply length_zeros2).
  cbn [bind ret].
  rewrite (set_block_rows_of (hcat (hvp self sd z Dq1 Du1) (hvp self sd z Dq1 Dk2))
             (hcat (hvp self sd z Dp1 Du1) (zeros2 (_np self) (_nrho self)))
             (zeros2 (_nv self) (_nu self + _nrho self))
             (hvp self sd z Dp1 Dk2) (Slice (_nu self) (_nu self + _nrho self))
             (_nQ self) (_np self))
    by (rewrite !length_hcat, ?length_zeros2; lia).
  rewrite (set_cols_suffix (_np self)) by done.
  done.
Qed.

(** X19: for every stepped adapter whose second derivatives have the
    system's dimensions, [fdudu(z)] has the contractions in its four
    blocks, the block of rows [rho] and columns [u] being the transpose of
    the block of rows [u] and columns [rho]. *)
Theorem fdudu_blocks `{Blas} (self : DSystem) (s1 : state1) (t2 : float) (sd : StepData)
    (z : vector) :
  layout self -> phase (varint self) = Stepped s1 t2 sd -> step_shapes2 self sd ->
  length z = _nX self ->
  fdudu self z =
    ret (hcat (hvp self sd z Du1 Du1) (hvp self sd z Du1 Dk2)
         ++ hcat (transpose_rows (_nrho self) (hvp self sd z Du1 Dk2))
              (hvp self sd z Dk2 Dk2)).
Proof.
  intros L Hph Hsd Hz.
  destruct (contracted_ok self s1 t2 sd z Du1 Du1 L Hph Hsd Hz) as [E11 S11].
  destruct (contracted_ok self s1 t2 sd z Du1 Dk2 L Hph Hsd Hz) as [E12 S12].
  destruct (contracted_ok self s1 t2 sd z Dk2 Dk2 L Hph Hsd Hz) as [E22 S22].
  simpl in S11, S12, S22.
  pose proof (has_shape_transpose_rows (_nrho self) (hvp self sd z Du1 Dk2)) as ST.
  pose proof S11 as [L11 _]. pose proof S12 as [L12 _]. pose proof S22 as [L22 _].
  rewrite L12 in ST. pose proof ST as [LT _].
  pose proof (has_shape_zeros2 (_nu self) (_nu self)) as Zuu.
  pose proof (has_shape_zeros2 (_nu self) (_nrho self)) as Zuk.
  pose proof (has_shape_zeros2 (_nrho self) (_nu self)) as Zku.
  pose proof (has_shape_zeros2 (_nrho self) (_nrho self)) as Zkk.
  unfold fdudu, q2_du1du1, p2_du1du1, q2_du1dk2, p2_du1dk2, q2_dk2dk2, p2_dk2dk2.
  rewrite E11. cbn [bind ret].
  rewrite (lay_u _ L), (lay_rho _ L), (lay_nU _ L).
  rewrite zeros2_rows_add, !zeros2_add.
  pose proof (set_block_rows_of []
                (hcat (zeros2 (_nu self) (_nu self)) (zeros2 (_nu self) (_nrho self)))
                (hcat (zeros2 (_nrho self) (_nu self)) (zeros2 (_nrho self) (_nrho self)))
                (hvp self sd z Du1 Du1) (Slice 0 (_nu self)) 0 (_nu self) eq_refl) as B1.
  cbn [app Nat.add] in B1. rewrite B1 by (rewrite !length_hcat, !length_zeros2; lia).
  clear B1.
  rewrite (set_cols_prefix (_nu self)) by (done || apply length_zeros2).
  cbn [bind ret]. rewrite E12. cbn [bind ret].
  pose proof (set_block_rows_of []
                (hcat (hvp self sd z Du1 Du1) (zeros2 (_nu self) (_nrho self)))
                (hcat (zeros2 (_nrho self) (_nu self)) (zeros2 (_nrho self) (_nrho self)))
                (hvp self sd z Du1 Dk2) (Slice (_nu self) (_nu self + _nrho self))
                0 (_nu self) eq_refl) as B2.
  cbn [app Nat.add] in B2. rewrite B2 by (rewrite !length_hcat, ?length_zeros2; lia).
  clear B2.
  rewrite (set_cols_suffix (_nu self)) by done.
  cbn [bind ret].
  rewrite (block_T_hcat2 (_nu self) (_nu self) (_nrho self)) by (done || lia).
  pose proof (set_block_rows_of
                (hcat (hvp self sd z Du1 Du1) (hvp self sd z Du1 Dk2))
                (hcat (zeros2 (_nrho self) (_nu self)) (zeros2 (_nrho self) (_nrho self)))
                [] (transpose_rows (_nrho self) (hvp self sd z Du1 Dk2))
                (Slice 0 (_nu self)) (_nu self) (_nrho self)) as B3.
  rewrite !app_nil_r in B3.
  rewrite B3 by (rewrite !length_hcat, ?length_zeros2; lia). clear B3.
  rewrite (set_cols_prefix (_nrho self)) by (done || apply length_zeros2).
  cbn [bind ret]. rewrite app_nil_r. rewrite E22. cbn [bind ret].
  pose proof (set_block_rows_of
                (hcat (hvp self sd z Du1 Du1) (hvp self sd z Du1 Dk2))
                (hcat (transpose_rows (_nrho self) (hvp self sd z Du1 Dk2))
                   (zeros2 (_nrho self) (_nrho self)))
                [] (hvp self sd z Dk2 Dk2)
                (Slice (_nu self) (_nu self + _nrho self)) (_nu self) (_nrho self)) as B4.
  rewrite !app_nil_r in B4.
  rewrite B4 by (rewrite !length_hcat, ?length_zeros2; lia). clear B4.
  rewrite (set_cols_suffix (_nrho self)) by done.
  cbn [bind ret]. by rewrite app_nil_r.
Qed.

Lemma layout_pusher_curved : layout pusher_curved.
Proof. apply layout_with_varint; [reflexivity | apply layout_init]. Qed.

Lemma curved_step_shapes2 : step_shapes2 pusher_curved curved_step.
Proof. intros o x y; destruct o, x, y; (split; [reflexivity | repeat constructor]). Qed.

Lemma fdxdx_blocks_witness :
  fdxdx (H := dot_in_order) pusher_curved [1; 2; 3; 4]%float
  = ret [[11; 23; 59; 0]; [35; 47; 83; 0]; [59; 83; 251; 0]; [0; 0; 0; 0]]%float.
Proof.
  etrans.
  - apply (fdxdx_blocks (H := dot_in_order) pusher_curved _ _ curved_step
             [1; 2; 3; 4]%float layout_pusher_curved eq_refl curved_step_shapes2
             eq_refl).
  - vm_compute. reflexivity.
Defined.

Lemma fdxdu_blocks_witness :
  fdxdu (H := dot_in_order) pusher_curved [1; 2; 3; 4]%float
  = ret [[107; 119; 155]; [131; 143; 179]; [299; 311; 347]; [0; 0; 0]]%float.
Proof.
  etrans.
  - apply (fdxdu_blocks (H := dot_in_order) pusher_curved _ _ curved_step
             [1; 2; 3; 4]%float layout_pusher_curved eq_refl curved_step_shapes2
             eq_refl).
  - vm_compute. reflexivity.
Defined.

Lemma fdudu_blocks_witness :
  fdudu (H := dot_in_order) pusher_curved [1; 2; 3; 4]%float
  = ret [[491; 503; 539]; [515; 527; 563]; [539; 563; 731]]%float.
Proof.
  etrans.
  - apply (fdudu_blocks (H := dot_in_order) pusher_curved _ _ curved_step
             [1; 2; 3; 4]%float layout_pusher_curved eq_refl curved_step_shapes2
             eq_refl).
  - vm_compute. reflexivity.
Defined.

(** ** Saving and loading *)

Lemma with_time_same (self : DSystem) (t : time_array) :
  _time self = t -> with_time t self = self.
Proof. destruct self. simpl. by intros <-. Qed.

Lemma build_trajectory_of_columns (self : DSystem) (ts : vector) (X U : matrix) :
  layout self -> _time self = Time1 ts -> 1 <= length ts ->
  has_shape (length ts) (_nX self) X -> has_shape (length ts - 1) (_nU self) U ->
  build_trajectory self
    (Some (get_cols (_slice_Q self) X)) (Some (get_cols (_slice_p self) X))
    (Some (get_cols (_slice_v self) X))
    (Some (get_cols (_slice_u self) U)) (Some (get_cols (_slice_rho self) U))
  = ret (X, U).
Proof.
  intros L Ht Hn HX HU.
  destruct (layout_slices self L) as (SQ & Sp & Sv & Su & Srho).
  rewrite (build_trajectory_filled self ts); try done;
    try (intros x [= <-]; by eapply has_shape_get_cols).
  simpl. f_equal.
  rewrite (lay_Q _ L), (lay_p _ L), (lay_v _ L), (lay_u _ L), (lay_rho _ L).
  rewrite (lay_nX _ L), (lay_nU _ L) in *.
  by rewrite (hcat_slices3 (length ts)), (hcat_slices2 (length ts - 1)).
Qed.

(** X20: a state and an input trajectory of the shapes of the time vector
    are saved as their five components, and loading the time vector and the
    components that were saved returns the two trajectories and leaves the
    adapter as it was. *)
Theorem load_state_trajectory_saved (self : DSystem) (ts : vector) (filename : string)
    (X U : matrix) :
  layout self -> _time self = Time1 ts -> 2 <= length ts ->
  has_shape (length ts) (_nX self) X -> has_shape (length ts - 1) (_nU self) U ->
  exists sv,
    save_state_trajectory self filename (Some X) (Some U) = ret sv /\
    sv_time sv = Time1 ts /\
    load_state_trajectory
      (ret {| ld_t := ts; ld_Q := Some (sv_Q sv); ld_p := Some (sv_p sv);
              ld_v := Some (sv_v sv); ld_u := Some (sv_u sv);
              ld_rho := Some (sv_rho sv) |}) self
    = (ret (X, U), self).
Proof.
  intros L Ht Hn HX HU.
  unfold save_state_trajectory, split_trajectory. cbn [bind ret].
  eexists. split; [done|]. split; [done|]. simpl.
  unfold load_state_trajectory, mbind, reading, set_time. simpl.
  rewrite squeeze_long by done. simpl.
  rewrite (with_time_same self) by done.
  rewrite (build_trajectory_of_columns self ts) by (done || lia). done.
Qed.

Lemma load_state_trajectory_saved_witness :
  exists sv,
    save_state_trajectory particle_dsys "traj.mat"
      (Some [[1; 2; 3; 4]; [5; 6; 7; 8]; [9; 10; 11; 12]]%float)
      (Some [[1; 2]; [3; 4]]%float) = ret sv /\
    sv_time sv = Time1 [0; 1; 2]%float /\
    load_state_trajectory
      (ret {| ld_t := [0; 1; 2]%float; ld_Q := Some (sv_Q sv); ld_p := Some (sv_p sv);
              ld_v := Some (sv_v sv); ld_u := Some (sv_u sv);
              ld_rho := Some (sv_rho sv) |}) particle_dsys
    = (ret ([[1; 2; 3; 4]; [5; 6; 7; 8]; [9; 10; 11; 12]]%float, [[1; 2]; [3; 4]]%float),
       particle_dsys).
Proof.
  apply (load_state_trajectory_saved particle_dsys [0; 1; 2]%float "traj.mat"
           _ _ (layout_init _ _) eq_refl);
    [ simpl; lia | | ]; split; [reflexivity | repeat constructor | reflexivity
                                | repeat constructor ].
Defined.

(** X21: [load_state_trajectory] assigns the loaded time vector before it
    builds the trajectories.  A loaded time vector of one entry fails the
    setter's assertion and the adapter is unchanged; a loaded component
    whose length disagrees with a loaded time vector of two or more entries
    makes [build_trajectory] raise, and the adapter keeps the loaded time
    vector. *)
Theorem load_state_trajectory_failures (self : DSystem) (l : loaded_trajectory) :
  (length (ld_t l) = 1 ->
   load_state_trajectory (ret l) self = (raise AssertionError, self)) /\
  (2 <= length (ld_t l) ->
   bad_length (ld_Q l) (Z.of_nat (length (ld_t l))) \/
   bad_length (ld_p l) (Z.of_nat (length (ld_t l))) \/
   bad_length (ld_v l) (Z.of_nat (length (ld_t l))) \/
   bad_length (ld_u l) (Z.of_nat (length (ld_t l)) - 1) \/
   bad_length (ld_rho l) (Z.of_nat (length (ld_t l)) - 1) ->
   exists msg,
     load_state_trajectory (ret l) self
     = (raise (TypeError msg), with_time (Time1 (ld_t l)) self)).
Proof.
  split.
  - intros Ht. unfold load_state_trajectory, mbind, reading, set_time. simpl.
    destruct (ld_t l) as [|x [|y t]]; try done.
  - intros Ht Hbad. unfold load_state_trajectory, mbind, reading, set_time. simpl.
    rewrite squeeze_long by done. simpl.
    rewrite (build_trajectory_mismatch _ (ld_t l)) by done.
    by eexists.
Qed.


Lemma load_state_trajectory_failures_witness :
  load_state_trajectory
    (ret {| ld_t := [0]%float; ld_Q := None; ld_p := None; ld_v := None;
            ld_u := None; ld_rho := None |}) particle_dsys
  = (raise AssertionError, particle_dsys) /\
  exists msg,
    load_state_trajectory
      (ret {| ld_t := [0; 1]%float; ld_Q := Some [[1; 2]]%float; ld_p := None;
              ld_v := None; ld_u := None; ld_rho := None |}) particle_dsys
    = (raise (TypeError msg), with_time (Time1 [0; 1]%float) particle_dsys).
Proof.
  split.
  - apply (load_state_trajectory_failures particle_dsys
             {| ld_t := [0]%float; ld_Q := None; ld_p := None; ld_v := None;
                ld_u := None; ld_rho := None |}).
    reflexivity.
  - apply (load_state_trajectory_failures particle_dsys
             {| ld_t := [0; 1]%float; ld_Q := Some [[1; 2]]%float; ld_p := None;
                ld_v := None; ld_u := None; ld_rho := None |}).
    + simpl. lia.
    + left. eexists. split; [reflexivity | simpl; lia].
Defined.

(** ** A time vector of one entry *)


(** ** What the methods leave alone *)

Lemma same_frame_trans (a b c : DSystem) :
  same_frame a b -> same_frame b c -> same_frame a c.
Proof.
  intros [Hab Sab] [Hbc Sbc]. split; [|congruence].
  intros vi k. by rewrite Hab, Hbc.
Qed.

Lemma same_frame_with_k (k : Z) (s : DSystem) : same_frame (with_k k s) s.
Proof. by split. Qed.

Lemma mbind_frame {A B} (m : method A) (g : A -> method B) :
  (forall s, same_frame (snd (m s)) s) ->
  (forall a s, same_frame (snd (g a s)) s) ->
  forall s, same_frame (snd (mbind m g s)) s.
Proof.
  intros Hm Hg s. unfold mbind. specialize (Hm s).
  destruct (m s) as [[e|a] s']; [done|].
  eapply same_frame_trans; [apply Hg|done].
Qed.

Lemma reading_frame {A} (r : DSystem -> result A) (s : DSystem) :
  same_frame (snd (reading r s)) s.
Proof. by split. Qed.

Lemma on_varint_frame {A} (op : VarInt -> result A * VarInt) :
  (forall vi, system (snd (op vi)) = system vi) ->
  forall s, same_frame (snd (on_varint op s)) s.
Proof.
  intros Hop s. unfold on_varint. specialize (Hop (varint s)).
  destruct (op (varint s)) as [r vi]. by split.
Qed.

Lemma vi_step_system `{Solver} (t2 : float) (u1 k2 : vector) (vi : VarInt) :
  system (snd (vi_step t2 u1 k2 vi)) = system vi.
Proof.
  unfold vi_step. destruct (phase vi); [done| |]; by destruct (solve _ _ _ _ _ _ _ _).
Qed.

Lemma set_frame `{Solver} (xk uk : option vector) (k : Z) (lambda_k : option vector)
    (s : DSystem) :
  same_frame (snd (set xk uk k lambda_k s)) s.
Proof.
  revert s. unfold set.
  apply mbind_frame; [intros s; apply same_frame_with_k|intros _].
  apply mbind_frame; [apply reading_frame|intros [[q1 p1] v1]].
  apply mbind_frame; [apply reading_frame|intros [u1 rho2]].
  apply mbind_frame; [apply reading_frame|intros t1].
  apply mbind_frame; [apply reading_frame|intros t2].
  apply mbind_frame; [by apply on_varint_frame|intros _].
  apply on_varint_frame. apply vi_step_system.
Qed.

Lemma for_each_frame {A} (l : list nat) (body : nat -> A -> method A) (acc : A) :
  (forall i a s, same_frame (snd (body i a s)) s) ->
  forall s, same_frame (snd (for_each l body acc s)) s.
Proof.
  intros Hbody. revert acc. induction l as [|i l IH]; intros acc; simpl.
  - by split.
  - apply mbind_frame; [apply Hbody|intros a; apply IH].
Qed.

(** X23: whether they return or raise, [set], [step] and
    [validate_derivatives] change nothing of the adapter but its index and
    the state of its integrator: the time vector, the dimensions and the
    slices stay as they were, [_xk] and [_uk] are never assigned, and the
    integrator keeps its system. *)
Theorem methods_keep_frame `{Solver} (self : DSystem) (xk uk lambda_k : option vector)
    (x u : vector) (k : Z) (delta : float) :
  same_frame (snd (set xk uk k lambda_k self)) self /\
  same_frame (snd (step uk self)) self /\
  same_frame (snd (validate_derivatives x u k delta self)) self.
Proof.
  split; [apply set_frame|]. split.
  - revert self. unfold step.
    apply mbind_frame; [intros s; apply same_frame_with_k|intros _].
    apply mbind_frame; [apply reading_frame|intros [u1 rho2]].
    apply mbind_frame; [apply reading_frame|intros t2].
    apply on_varint_frame. apply vi_step_system.
  - revert self. unfold validate_derivatives.
    assert (forall i a s, same_frame (snd (perturb_x x u k delta i a s)) s) as Hpx.
    { intros i a. unfold perturb_x.
      apply mbind_frame; [apply reading_frame|intros dxk].
      apply mbind_frame; [apply set_frame|intros _].
      apply mbind_frame; [apply reading_frame|intros dfp].
      apply mbind_frame; [apply reading_frame|intros dxk'].
      apply mbind_frame; [apply set_frame|intros _].
      apply mbind_frame; [apply reading_frame|intros dfm].
      apply reading_frame. }
    assert (forall i a s, same_frame (snd (perturb_u x u k delta i a s)) s) as Hpu.
    { intros i a. unfold perturb_u.
      apply mbind_frame; [apply reading_frame|intros duk].
      apply mbind_frame; [apply set_frame|intros _].
      apply mbind_frame; [apply reading_frame|intros dfp].
      apply mbind_frame; [apply reading_frame|intros duk'].
      apply mbind_frame; [apply set_frame|intros _].
      apply mbind_frame; [apply reading_frame|intros dfm].
      apply reading_frame. }
    apply mbind_frame; [apply set_frame|intros _].
    apply mbind_frame; [apply reading_frame|intros f0].
    apply mbind_frame; [apply reading_frame|intros fdx_exact].
    apply mbind_frame; [apply reading_frame|intros fdu_exact].
    apply mbind_frame; [intros s; by apply for_each_frame|intros fdx_approx].
    apply mbind_frame; [intros s; by apply for_each_frame|intros fdu_approx].
    apply reading_frame.
Qed.

(** ** Stepping on from the new state *)

(** X24: the adapter keeps its promise X[k+1] = f(X[k], U[k], k) from one
    step to the next only up to the constraint forces.  After
    [set(x, u, k)] the integrator holds a step and [f()] returns; [step]
    carries on from that step, [set] at the state [f()] returned starts
    again with zero constraint forces, and the two leave the adapter in the
    same state when the step's constraint forces are zero. *)
Theorem step_continues_from_f `{Solver} (self : DSystem) (ts x u u' : vector) (k : Z) :
  layout self -> ordered_configs (dsystem self) -> _time self = Time1 ts ->
  (0 <= k)%Z -> (k + 2 < Z.of_nat (length ts))%Z -> solver_ok self ->
  length x = _nX self -> length u = _nU self ->
  exists s1 st t2 sd y,
    set (Some x) (Some u) k None self = (ret tt, s1) /\
    phase (varint s1) = Stepped st t2 sd /\
    f s1 = ret y /\
    (sd_lambda2 sd = zeros (length (constraints (dsystem self))) ->
     step (Some u') s1 = set (Some y) (Some u') (k + 1) None s1).
Proof.
  intros L O Ht H0 H2 Hok Hx Hu.
  assert (k + 1 < Z.of_nat (length ts))%Z as H1 by lia.
  destruct (set_ok self ts k L Ht H0 H1 Hok x u Hx Hu)
    as (t1 & t2 & sd & Hl1 & Hl2 & Hsolve & Hsd & Hset).
  destruct (split_state_lengths self x L Hx) as (HQ & _).
  pose proof Hsd as (Hq2 & Hp2 & _).
  pose proof (layout_nQ_split self L O) as HnQ.
  set (st := {| s_t := t1;
                s_q := get_slice (_slice_Q self) x;
                s_p := get_slice (_slice_p self) x;
                s_lambda := zeros (length (constraints (dsystem self))) |}).
  pose proof (f_stepped (stepped_adapter self k x t1 t2 sd) st t2 sd
                ltac:(by apply layout_with_varint, layout_with_k)
                O eq_refl HQ Hq2 Hp2) as Hf.
  eexists (stepped_adapter self k x t1 t2 sd), st, t2, sd, _.
  split; [apply Hset; by split|]. split; [done|]. split; [exact Hf|].
  intros Hlam.
  assert (length (finite_difference (stepped_adapter self k x t1 t2 sd) st t2 sd)
          = _nv self) as Hv.
  { unfold finite_difference, kinematic. simpl.
    rewrite length_zip_with, !length_drop. lia. }
  destruct (get_item_in_range ts (k + 1)) as (t2' & Hl2' & Hg1); [lia|].
  assert (t2' = t2) as -> by congruence.
  destruct (get_item_in_range ts (k + 1 + 1)) as (t3 & _ & Hg2); [lia|].
  unfold step, set, mbind, assign, reading, on_varint, split_input.
  cbn [fst snd].
  rewrite (split_state_app (with_k (k + 1) (stepped_adapter self k x t1 t2 sd)) _ _ _
             ltac:(by apply layout_with_k, layout_with_varint, layout_with_k)
             Hq2 Hp2 Hv).
  cbn -[get_slice vi_step initialize_from_state].
  rewrite Ht. cbn -[get_slice vi_step initialize_from_state].
  rewrite Z.add_0_r, Hg1, Hg2.
  cbn -[get_slice vi_step initialize_from_state].
  unfold vi_step, initialize_from_state. simpl. by rewrite Hlam.
Qed.

Lemma step_continues_from_f_witness :
  exists s1 st t2 sd y,
    set (H := particle_solve) (Some particle_x0) (Some particle_u0) 0 None particle_dsys
    = (ret tt, s1) /\
    phase (varint s1) = Stepped st t2 sd /\
    f s1 = ret y /\
    (sd_lambda2 sd = zeros (length (constraints (dsystem particle_dsys))) ->
     step (H := particle_solve) (Some [1.5; 0.25]%float) s1
     = set (H := particle_solve) (Some y) (Some [1.5; 0.25]%float) (0 + 1) None s1).
Proof.
  apply (step_continues_from_f (H := particle_solve) particle_dsys [0; 1; 2]%float
           particle_x0 particle_u0 [1.5; 0.25]%float 0 (layout_init _ _) eq_refl eq_refl);
    [ lia | simpl; lia | exact particle_solver_ok | reflexivity | reflexivity ].
Defined.

(** ** A system without inputs *)

Lemma concat_no_columns (n : nat) (m : matrix) : has_shape n 0 m -> concat m = [].
Proof.
  intros [_ Hm]. induction Hm as [|r m Hr _ IH]; [done|].
  simpl. rewrite IH. by destruct r.
Qed.

Lemma norm_no_columns (n : nat) (m : matrix) : has_shape n 0 m -> norm m = 0%float.
Proof. intros Hm. unfold norm. by rewrite (concat_no_columns n). Qed.

(** X25: for a system with no force input and no kinematic configuration
    the input vector is empty, the second loop of [validate_derivatives]
    runs no pass, and both norms of the input error are norms of arrays
    without columns: the method returns, and the second error it returns is
    the quotient of zero by zero, not a number. *)
Theorem validate_derivatives_no_inputs `{Solver} (self : DSystem) (ts xk uk : vector)
    (k : Z) (delta : float) :
  layout self -> ordered_configs (dsystem self) -> _time self = Time1 ts ->
  (0 <= k)%Z -> (k + 1 < Z.of_nat (length ts))%Z -> solver_ok self ->
  length xk = _nX self -> length uk = _nU self -> _nU self = 0 ->
  exists fdx_error fdu_error s',
    validate_derivatives xk uk k delta self = (ret (fdx_error, fdu_error), s') /\
    PrimFloat.is_nan fdu_error = true.
Proof.
  intros L O Ht H0 H1 Hok Hx Hu HnU.
  destruct (set_ok self ts k L Ht H0 H1 Hok xk uk Hx Hu)
    as (t1 & t2 & sd & _ & _ & _ & Hsd & Hset).
  destruct (f_stepped_adapter self ts k L O xk t1 t2 sd Hx Hsd) as (f0 & Hf0 & _).
  assert (layout (stepped_adapter self k xk t1 t2 sd)) as Ls
    by (by apply layout_with_varint, layout_with_k).
  destruct (fdx_ok (stepped_adapter self k xk t1 t2 sd) ts _ t2 sd
              Ls Ht H0 H1 eq_refl Hsd) as (Jx & HJx & HsJx).
  destruct (fdu_ok (stepped_adapter self k xk t1 t2 sd) ts _ t2 sd
              Ls Ht H0 H1 eq_refl Hsd) as (Ju & HJu & HsJu).
  simpl in HsJx, HsJu. rewrite HnU in HsJu.
  pose (colx := fun i =>
          match central_difference_x self xk uk k delta i with
          | inr c => c
          | inl _ => []
          end).
  destruct (for_each_columns (perturb_x xk uk k delta)
              (fun s => same_frame s self) colx
              (fun i => snd (set (Some (alter (fun x => PrimFloat.sub x delta) i xk))
                               (Some uk) k None self))
              (_nX self) (_nX self)) with
    (n := _nX self) (a := 0) (acc := zeros2 (_nX self) (_nX self))
    (s := stepped_adapter self k xk t1 t2 sd)
    as (Ax & sx & Hloopx & Hsx & _ & _ & HAx & _).
  { intros i acc s Hi Hs.
    destruct (perturb_x_spec self ts k L O Ht H0 H1 Hok xk uk delta Hx Hu i acc s Hs Hi)
      as (col & Hc & Hlen & Hsf & Hp).
    unfold colx. rewrite Hc. by rewrite Hp. }
  { done. }
  { by split. }
  { apply has_shape_zeros2. }
  destruct (same_frame_dims sx self Hsx) as [EnX EnU].
  exists (relative_frobenius Jx Ax),
         (relative_frobenius Ju (zeros2 (_nX self) 0)), sx.
  split.
  - unfold validate_derivatives.
    etrans; [eapply mbind_ret; apply Hset; by split|]. cbv beta.
    rewrite (mbind_reading f _ _ f0 Hf0).
    rewrite (mbind_reading fdx _ _ Jx HJx).
    rewrite (mbind_reading fdu _ _ Ju HJu).
    etrans; [eapply mbind_ret; exact Hloopx|]. cbv beta.
    unfold mbind at 1. unfold nX, nU. rewrite EnX, EnU, HnU. simpl.
    unfold reading.
    rewrite (relative_error_ok _ _ Jx Ax HsJx HAx).
    by rewrite (relative_error_ok _ _ Ju _ HsJu (has_shape_zeros2 _ 0)).
  - unfold relative_frobenius. rewrite <- !norm_frobenius.
    rewrite (norm_no_columns (_nX self) Ju HsJu).
    rewrite (norm_no_columns (_nX self)); [done|].
    apply has_shape_zip_with; [done|apply has_shape_zeros2].
Qed.

Lemma rotor_solver_ok : solver_ok (H := rotor_solve) rotor_dsys.
Proof.
  intros t1 q1 p1 lambda1 t2 u1 k2 Hq Hp Hu Hk.
  destruct q1 as [|th1 [|? ?]]; try done.
  destruct p1 as [|p1 [|? ?]]; try done.
  destruct u1 as [|? ?]; try done.
  destruct k2 as [|? ?]; try done.
  eexists. split; [reflexivity|].
  repeat split; simpl; repeat constructor.
Qed.

Lemma validate_derivatives_no_inputs_witness :
  exists fdx_error fdu_error s',
    validate_derivatives (H := rotor_solve) [1; 2]%float [] 0
      0x1.4f8b588e368f1p-17%float rotor_dsys
    = (ret (fdx_error, fdu_error), s') /\
    PrimFloat.is_nan fdu_error = true.
Proof.
  apply (validate_derivatives_no_inputs (H := rotor_solve) rotor_dsys [0; 1; 2]%float
           [1; 2]%float [] 0 _ (layout_init _ _) eq_refl eq_refl);
    [ lia | simpl; lia | exact rotor_solver_ok | reflexivity | reflexivity | reflexivity ].
Defined.
